(** * Podcastify frontend: search ranking, request life cycle, script parsing

    A shallow embedding of the logic of the React frontend:
    - [BookAutocomplete.jsx]: [calculateTitleMatch], the ranking pipeline of
      [fetchBooks], the in-memory [searchCache], request cancellation, the
      debounce timer of [handleInputChange] and the typewriter placeholder;
    - [BookDetails.jsx]: [handleSummary], the three remote calls in sequence,
      [getCoverUrl] and the cover container;
    - [AudioPlayer.jsx]: [parseScript], and what the page reads from the
      navigation state;
    - [main.jsx], [App.jsx]: the route table and the selection handler.

    Modelling conventions.
    - A JavaScript string is a [string] whose characters are read as the code
      points U+0000 to U+00FF (Latin-1); white space, case mapping, word
      characters and line terminators are those of ECMAScript on that range.
    - A JavaScript number that the code only counts with is a [Z] or a [nat];
      the relevance scores, which the code computes in double precision, are
      computed here in exact rational arithmetic ([Q]).
    - [undefined]/[null] are [None]; a thrown exception is [None] in the
      option monad or a constructor of a result type.
    - React state is a record; every [setX] is a field update; an event
      handler or a promise continuation is one transition on that record. *)

From Stdlib Require Import ZArith QArith Qround Qminmax Lqa Lia Bool Ascii DecimalString.
From stdpp Require Import gmap strings list fin_maps option sorting.

Local Open Scope Z_scope.

(** ** JavaScript strings on the Latin-1 range *)

Module Js.

Definition code (c : ascii) : N := Ascii.N_of_ascii c.

(** [WhiteSpace] and [LineTerminator] code points below U+0100:
    TAB, LF, VT, FF, CR, SP and NBSP. This is what [trim] strips and what
    [\s] matches. *)
Definition isWhiteSpace (c : ascii) : bool :=
  let n := code c in
  ((9 <=? n) && (n <=? 13) || (n =? 32) || (n =? 160))%N.

(** What [.] does not match: LF and CR. *)
Definition isLineTerminator (c : ascii) : bool :=
  let n := code c in ((n =? 10) || (n =? 13))%N.

(** [\w]: the ASCII letters, the digits and the underscore. *)
Definition isWordChar (c : ascii) : bool :=
  let n := code c in
  ((48 <=? n) && (n <=? 57) || (65 <=? n) && (n <=? 90) || (n =? 95)
   || (97 <=? n) && (n <=? 122))%N.

(** Lower-case mapping: A-Z, and U+00C0..U+00DE but for the multiplication
    sign U+00D7. *)
Definition toLowerChar (c : ascii) : ascii :=
  let n := code c in
  if ((65 <=? n) && (n <=? 90)
      || (192 <=? n) && (n <=? 222) && negb (n =? 215))%N
  then Ascii.ascii_of_N (n + 32) else c.

Fixpoint toLowerCase (s : string) : string :=
  match s with
  | EmptyString => EmptyString
  | String c r => String (toLowerChar c) (toLowerCase r)
  end.

Fixpoint trimStart (s : string) : string :=
  match s with
  | EmptyString => EmptyString
  | String c r => if isWhiteSpace c then trimStart r else s
  end.

Fixpoint trimEnd (s : string) : string :=
  match s with
  | EmptyString => EmptyString
  | String c r =>
      match trimEnd r with
      | EmptyString => if isWhiteSpace c then EmptyString else String c EmptyString
      | r' => String c r'
      end
  end.

Definition trim (s : string) : string := trimEnd (trimStart s).

(** [s.startsWith(t)] *)
Fixpoint startsWith (s t : string) : bool :=
  match t, s with
  | EmptyString, _ => true
  | String _ _, EmptyString => false
  | String b t', String a s' => Ascii.eqb a b && startsWith s' t'
  end.

(** [s.includes(t)] *)
Fixpoint includes (s t : string) : bool :=
  startsWith s t
  || match s with
     | EmptyString => false
     | String _ r => includes r t
     end.

(** [s.split(/\s+/)]: the pieces between maximal runs of white space. A run
    at either end of [s] leaves an empty piece there, and the empty string
    splits into one empty piece. [inSep] tells that the previous character
    was white space. *)
Fixpoint split_ws_from (inSep : bool) (s : string) : list string :=
  match s with
  | EmptyString => [EmptyString]
  | String c r =>
      if isWhiteSpace c
      then (if inSep then split_ws_from true r
            else EmptyString :: split_ws_from true r)
      else match split_ws_from false r with
           | p :: ps => String c p :: ps
           | [] => [String c EmptyString]
           end
  end.

Definition split_ws (s : string) : list string := split_ws_from false s.

Definition length (s : string) : Z := Z.of_nat (String.length s).

(** [s.slice(b, e)]: a negative index counts from the end, and both are
    clamped to the string. *)
Definition sliceIndex (len i : Z) : Z :=
  if i <? 0 then Z.max (len + i) 0 else Z.min i len.

Definition slice (s : string) (b e : Z) : string :=
  let from := sliceIndex (length s) b in
  let to := sliceIndex (length s) e in
  String.substring (Z.to_nat from) (Z.to_nat (to - from)) s.

End Js.


(** ** BookAutocomplete.jsx: relevance of a title for a query *)

Module Autocomplete.

(** [s.toLowerCase().trim()] *)
Definition normalized (s : string) : string := Js.trim (Js.toLowerCase s).

(** The inner loop of [calculateTitleMatch] over [titleWords] for one
    [qWord]: it returns [(foundExact, foundPartial)] and stops at the first
    exact match ([break]). *)
Fixpoint scanTitleWords (qWord : string) (titleWords : list string)
    (foundPartial : bool) : bool * bool :=
  match titleWords with
  | [] => (false, foundPartial)
  | tWord :: rest =>
      if String.eqb tWord qWord then (true, foundPartial)
      else if Js.startsWith tWord qWord || Js.startsWith qWord tWord
           then scanTitleWords qWord rest true
           else scanTitleWords qWord rest foundPartial
  end.

(** The outer loop: [(matchedWords, partialMatches)]. *)
Definition countStep (titleWords : list string) (acc : nat * nat)
    (qWord : string) : nat * nat :=
  let '(matchedWords, partialMatches) := acc in
  let '(foundExact, foundPartial) := scanTitleWords qWord titleWords false in
  if foundExact then (S matchedWords, partialMatches)
  else if foundPartial then (matchedWords, S partialMatches)
  else (matchedWords, partialMatches).

Definition countMatches (queryWords titleWords : list string) : nat * nat :=
  fold_left (countStep titleWords) queryWords (0%nat, 0%nat).

(** [Math.round]: the nearest integer, a tie going up. *)
Definition Math_round (x : Q) : Z := Qfloor (x + (1 # 2)).

Definition ratio (k n : nat) : Q :=
  (inject_Z (Z.of_nat k) / inject_Z (Z.of_nat n))%Q.

Definition calculateTitleMatch (title query : string) : Z :=
  if String.eqb title "" || String.eqb query "" then 0
  else
    let normalizedTitle := normalized title in
    let normalizedQuery := normalized query in
    if String.eqb normalizedTitle normalizedQuery then 100
    else if Js.startsWith normalizedTitle normalizedQuery then 95
    else if Js.startsWith normalizedQuery normalizedTitle then 90
    else if Js.includes normalizedTitle normalizedQuery then 85
    else
      let queryWords :=
        List.filter (fun w => 1 <? Js.length w) (Js.split_ws normalizedQuery) in
      let titleWords := Js.split_ws normalizedTitle in
      if (List.length queryWords =? 0)%nat then 0
      else
        let '(matchedWords, partialMatches) := countMatches queryWords titleWords in
        let exactRatio := ratio matchedWords (List.length queryWords) in
        let partialRatio := ratio partialMatches (List.length queryWords) in
        Math_round (exactRatio * 70 + partialRatio * 20)%Q.

(** *** The documents of the search API and the suggestions made of them *)

(** One element of [data.docs]; a field the API left out is [None]. *)
Record doc := {
  doc_title : option string;
  doc_author_name : option (list string);
  doc_first_publish_year : option Z;
  doc_key : option string;
  doc_cover_i : option Z;
  doc_isbn : option (list string);
  doc_edition_count : option Z;
  doc_ratings_average : option Q
}.

Record suggestion := {
  key : option string;
  title : option string;
  authors : string;
  year : option Z;
  cover_i : option Z;
  isbn : option (list string);
  editionCount : Z;
  score : Q;
  titleScore : Z
}.

(** [x || 0] and [x || null] on a number, [x ? a : b]: zero and the absent
    value are falsy. *)
Definition truthyZ (x : option Z) : bool :=
  match x with Some n => negb (n =? 0) | None => false end.
Definition orZero (x : option Z) : Z := default 0 x.
Definition orNull (x : option Z) : option Z := if truthyZ x then x else None.
Definition orZeroQ (x : option Q) : Q := default 0%Q x.

(** [l.join(sep)] *)
Definition join (sep : string) (l : list string) : string :=
  match l with
  | [] => ""
  | x :: r => fold_left (fun acc y => acc +:+ sep +:+ y) r x
  end.

(** [book.author_name?.join(', ') || 'Unknown author'] *)
Definition authorsOf (author_name : option (list string)) : string :=
  match author_name with
  | None => "Unknown author"
  | Some l => let j := join ", " l in
              if String.eqb j "" then "Unknown author" else j
  end.

(** [calculateTitleMatch(book.title, cleanQuery)]: the guard [!title] gives
    0 for an absent title as for the empty one. *)
Definition titleMatchOf (t : option string) (cleanQuery : string) : Z :=
  match t with
  | None => 0
  | Some t => calculateTitleMatch t cleanQuery
  end.

(** The callback of [data.docs.map]. *)
Definition scoreBook (cleanQuery : string) (book : doc) : suggestion :=
  let titleScore := titleMatchOf (doc_title book) cleanQuery in
  let popularityScore :=
    (Qmin (inject_Z (orZero (doc_edition_count book)) / 100) 1 * 20)%Q in
  let ratingScore := (orZeroQ (doc_ratings_average book) * 2)%Q in
  let hasYear := if truthyZ (doc_first_publish_year book) then 5 else 0 in
  let hasCover := if truthyZ (doc_cover_i book) then 5 else 0 in
  {| key := doc_key book;
     title := doc_title book;
     authors := authorsOf (doc_author_name book);
     year := orNull (doc_first_publish_year book);
     cover_i := orNull (doc_cover_i book);
     isbn := doc_isbn book;
     editionCount := orZero (doc_edition_count book);
     score := (inject_Z titleScore + popularityScore + ratingScore
               + inject_Z hasYear + inject_Z hasCover)%Q;
     titleScore := titleScore |}.

(** The first [filter]: a reasonable title match or a very popular book. *)
Definition relevant (book : suggestion) : bool :=
  (20 <=? titleScore book) || (50 <? editionCount book).

(** [(a, b) => b.score - a.score] *)
Definition compareScore (a b : suggestion) : Q := (score b - score a)%Q.

(** [Array.prototype.sort] is stable: [x], which stood before every element
    of [l], goes behind exactly those that the comparator puts strictly
    before it. *)
Fixpoint insertSorted {A} (compareFn : A -> A -> Q) (x : A) (l : list A) : list A :=
  match l with
  | [] => [x]
  | y :: r =>
      if Qle_bool 0 (compareFn y x) then x :: y :: r
      else y :: insertSorted compareFn x r
  end.

Definition sort {A} (compareFn : A -> A -> Q) (l : list A) : list A :=
  foldr (insertSorted compareFn) [] l.

(** [.replace(/[^\w\s]/g, '')]: every character that is neither a word
    character nor white space is removed. *)
Fixpoint stripPunctuation (s : string) : string :=
  match s with
  | EmptyString => EmptyString
  | String c r =>
      if Js.isWordChar c || Js.isWhiteSpace c
      then String c (stripPunctuation r)
      else stripPunctuation r
  end.

(** [book.title.toLowerCase().replace(/[^\w\s]/g, '')]; [None] is the
    [TypeError] of calling [toLowerCase] on an absent title. *)
Definition dedupeKey (book : suggestion) : option string :=
  t ← title book; Some (stripPunctuation (Js.toLowerCase t)).

(** [arr.findIndex(p)], -1 when no element satisfies [p]; the callback may
    throw. *)
Fixpoint findIndexFrom {A} (p : A -> option bool) (i : Z) (arr : list A) : option Z :=
  match arr with
  | [] => Some (-1)
  | x :: r => b ← p x; if b : bool then Some i else findIndexFrom p (i + 1) r
  end.

Definition findIndex {A} (p : A -> option bool) (arr : list A) : option Z :=
  findIndexFrom p 0 arr.

(** [arr.filter((x, index, arr) => ...)] with a callback that may throw. *)
Fixpoint filterFrom {A} (f : A -> Z -> option bool) (i : Z) (l : list A)
    : option (list A) :=
  match l with
  | [] => Some []
  | x :: r =>
      b ← f x i;
      r' ← filterFrom f (i + 1) r;
      Some (if b : bool then x :: r' else r')
  end.

(** The second [filter]: an element is kept when it is the first of the
    array with its normalised title. *)
Definition sameKey (normalizedTitle : string) (b : suggestion) : option bool :=
  k ← dedupeKey b; Some (String.eqb k normalizedTitle).

Definition isFirstWithTitle (arr : list suggestion) (book : suggestion)
    (index : Z) : option bool :=
  normalizedTitle ← dedupeKey book;
  i ← findIndex (sameKey normalizedTitle) arr;
  Some (index =? i).

Definition removeDuplicates (arr : list suggestion) : option (list suggestion) :=
  filterFrom (isFirstWithTitle arr) 0 arr.

(** [data.docs.map(...).filter(...).sort(...).filter(...).slice(0, 6)];
    [None] when the chain throws. *)
Definition rankResults (cleanQuery : string) (docs : list doc)
    : option (list suggestion) :=
  let scored := map (scoreBook cleanQuery) docs in
  let kept := List.filter relevant scored in
  let sorted := sort compareScore kept in
  deduped ← removeDuplicates sorted;
  Some (take 6 deduped).


Definition titled (book : suggestion) : Prop := is_Some (title book).




(** *** The component: React state, refs, and the browser around it *)

Definition TYPEWRITER_TEXT : string := "Search for any book...".
Definition TYPING_SPEED : Z := 80.
Definition DELETING_SPEED : Z := 40.
Definition PAUSE_AFTER_TYPE : Z := 2000.
Definition PAUSE_AFTER_DELETE : Z := 500.

(** The [useState] cells. *)
Record ui := {
  query : string;
  suggestions : list suggestion;
  isLoading : bool;
  isOpen : bool;
  activeIndex : Z;
  isFocused : bool;
  displayPlaceholder : string;
  isTyping : bool
}.

(** A [fetch] that was started: the query it carries, the cache key its
    continuation will write, and whether it is still in flight, was
    aborted (its rejection not yet handled) or is over. A request is named
    by its position in the list of all requests, which also names its
    [AbortController]. *)
Inductive status := InFlight | Aborted | Settled.

Record request := {
  req_query : string;
  req_key : string;
  req_status : status
}.

(** A pending [setTimeout(() => fetchBooks(value), 200)]. *)
Record timer := {
  timer_id : nat;
  timer_due : Z;
  timer_value : string
}.

(** The callback of the pending typewriter timeout. *)
Inductive tw_action :=
| TwSetDisplayPlaceholder (s : string)
| TwSetIsTyping (b : bool).

Record world := {
  st : ui;
  abortControllerRef : option nat;
  debounceTimerRef : option nat;
  searchCache : gmap string (list suggestion);
  requests : list request;
  timers : list timer;
  nextTimerId : nat;
  now : Z;
  typewriter : option (Z * tw_action)
}.

Definition with_st (f : ui -> ui) (w : world) : world :=
  {| st := f (st w); abortControllerRef := abortControllerRef w;
     debounceTimerRef := debounceTimerRef w; searchCache := searchCache w;
     requests := requests w; timers := timers w;
     nextTimerId := nextTimerId w; now := now w; typewriter := typewriter w |}.

Definition setQuery (v : string) : world -> world :=
  with_st (fun s =>
    {| query := v; suggestions := suggestions s; isLoading := isLoading s;
       isOpen := isOpen s; activeIndex := activeIndex s;
       isFocused := isFocused s; displayPlaceholder := displayPlaceholder s;
       isTyping := isTyping s |}).

Definition setSuggestions (v : list suggestion) : world -> world :=
  with_st (fun s =>
    {| query := query s; suggestions := v; isLoading := isLoading s;
       isOpen := isOpen s; activeIndex := activeIndex s;
       isFocused := isFocused s; displayPlaceholder := displayPlaceholder s;
       isTyping := isTyping s |}).

Definition setIsLoading (v : bool) : world -> world :=
  with_st (fun s =>
    {| query := query s; suggestions := suggestions s; isLoading := v;
       isOpen := isOpen s; activeIndex := activeIndex s;
       isFocused := isFocused s; displayPlaceholder := displayPlaceholder s;
       isTyping := isTyping s |}).

Definition setIsOpen (v : bool) : world -> world :=
  with_st (fun s =>
    {| query := query s; suggestions := suggestions s; isLoading := isLoading s;
       isOpen := v; activeIndex := activeIndex s;
       isFocused := isFocused s; displayPlaceholder := displayPlaceholder s;
       isTyping := isTyping s |}).

Definition setActiveIndex (v : Z) : world -> world :=
  with_st (fun s =>
    {| query := query s; suggestions := suggestions s; isLoading := isLoading s;
       isOpen := isOpen s; activeIndex := v;
       isFocused := isFocused s; displayPlaceholder := displayPlaceholder s;
       isTyping := isTyping s |}).

Definition setIsFocused (v : bool) : world -> world :=
  with_st (fun s =>
    {| query := query s; suggestions := suggestions s; isLoading := isLoading s;
       isOpen := isOpen s; activeIndex := activeIndex s;
       isFocused := v; displayPlaceholder := displayPlaceholder s;
       isTyping := isTyping s |}).

Definition setDisplayPlaceholder (v : string) : world -> world :=
  with_st (fun s =>
    {| query := query s; suggestions := suggestions s; isLoading := isLoading s;
       isOpen := isOpen s; activeIndex := activeIndex s;
       isFocused := isFocused s; displayPlaceholder := v;
       isTyping := isTyping s |}).

Definition setIsTyping (v : bool) : world -> world :=
  with_st (fun s =>
    {| query := query s; suggestions := suggestions s; isLoading := isLoading s;
       isOpen := isOpen s; activeIndex := activeIndex s;
       isFocused := isFocused s; displayPlaceholder := displayPlaceholder s;
       isTyping := v |}).

(** [searchCache.set(k, v)] *)
Definition cacheSet (k : string) (v : list suggestion) (w : world) : world :=
  {| st := st w; abortControllerRef := abortControllerRef w;
     debounceTimerRef := debounceTimerRef w;
     searchCache := <[k := v]> (searchCache w);
     requests := requests w; timers := timers w;
     nextTimerId := nextTimerId w; now := now w; typewriter := typewriter w |}.

Definition with_requests (rs : list request) (ref : option nat) (w : world) : world :=
  {| st := st w; abortControllerRef := ref;
     debounceTimerRef := debounceTimerRef w; searchCache := searchCache w;
     requests := rs; timers := timers w;
     nextTimerId := nextTimerId w; now := now w; typewriter := typewriter w |}.

Definition with_timers (ts : list timer) (ref : option nat) (next : nat)
    (w : world) : world :=
  {| st := st w; abortControllerRef := abortControllerRef w;
     debounceTimerRef := ref; searchCache := searchCache w;
     requests := requests w; timers := ts;
     nextTimerId := next; now := now w; typewriter := typewriter w |}.

Definition with_typewriter (t : option (Z * tw_action)) (w : world) : world :=
  {| st := st w; abortControllerRef := abortControllerRef w;
     debounceTimerRef := debounceTimerRef w; searchCache := searchCache w;
     requests := requests w; timers := timers w;
     nextTimerId := nextTimerId w; now := now w; typewriter := t |}.

Definition with_now (t : Z) (w : world) : world :=
  {| st := st w; abortControllerRef := abortControllerRef w;
     debounceTimerRef := debounceTimerRef w; searchCache := searchCache w;
     requests := requests w; timers := timers w;
     nextTimerId := nextTimerId w; now := t; typewriter := typewriter w |}.

(** *** The typewriter effect *)

(** The body of the first [useEffect]: the timeout it sets, as a delay and
    a callback, or nothing when the user has typed or the input has the
    focus. *)
Definition typewriterEffect (s : ui) : option (Z * tw_action) :=
  if (0 <? Js.length (query s)) || isFocused s then None
  else if isTyping s then
    if Js.length (displayPlaceholder s) <? Js.length TYPEWRITER_TEXT
    then Some (TYPING_SPEED,
               TwSetDisplayPlaceholder
                 (Js.slice TYPEWRITER_TEXT 0 (Js.length (displayPlaceholder s) + 1)))
    else Some (PAUSE_AFTER_TYPE, TwSetIsTyping false)
  else
    if 0 <? Js.length (displayPlaceholder s)
    then Some (DELETING_SPEED,
               TwSetDisplayPlaceholder (Js.slice (displayPlaceholder s) 0 (-1)))
    else Some (PAUSE_AFTER_DELETE, TwSetIsTyping true).

(** The dependency array [[displayPlaceholder, isTyping, query, isFocused]]. *)
Definition typewriterDeps (s : ui) : string * bool * string * bool :=
  (displayPlaceholder s, isTyping s, query s, isFocused s).

Definition deps_eqb (a b : string * bool * string * bool) : bool :=
  let '(p1, t1, q1, f1) := a in
  let '(p2, t2, q2, f2) := b in
  String.eqb p1 p2 && Bool.eqb t1 t2 && String.eqb q1 q2 && Bool.eqb f1 f2.

(** After a handler has run React renders again: when a dependency changed,
    the cleanup clears the pending timeout and the effect sets a new one. *)
Definition rerender (before : ui) (w : world) : world :=
  if deps_eqb (typewriterDeps before) (typewriterDeps (st w)) then w
  else with_typewriter
         (prod_map (Z.add (now w)) id <$> typewriterEffect (st w)) w.

Definition applyTypewriter (a : tw_action) : world -> world :=
  match a with
  | TwSetDisplayPlaceholder s => setDisplayPlaceholder s
  | TwSetIsTyping b => setIsTyping b
  end.

(** The [placeholder] attribute of the input. *)
Definition placeholder (s : ui) : string :=
  if isFocused s || (0 <? Js.length (query s)) then "Search for any book..."
  else displayPlaceholder s.

(** *** fetchBooks *)

Definition abort (id : nat) (rs : list request) : list request :=
  alter (fun r => match req_status r with
                  | InFlight => {| req_query := req_query r; req_key := req_key r;
                                   req_status := Aborted |}
                  | _ => r
                  end) id rs.

Definition settle (id : nat) (rs : list request) : list request :=
  alter (fun r => {| req_query := req_query r; req_key := req_key r;
                     req_status := Settled |}) id rs.

(** [fetchBooks(searchQuery)] up to its first [await]: the cache look-up,
    and on a miss the abort of the controller in [abortControllerRef], the
    new controller and the [fetch] that carries its signal. *)
Definition fetchBooks (searchQuery : string) (w : world) : world :=
  let cleanQuery := Js.trim searchQuery in
  let cacheKey := Js.toLowerCase cleanQuery in
  match searchCache w !! cacheKey with
  | Some cached => setIsOpen true (setIsLoading false (setSuggestions cached w))
  | None =>
      let rs := match abortControllerRef w with
                | Some id => abort id (requests w)
                | None => requests w
                end in
      let controller := List.length rs in
      with_requests
        (rs ++ [{| req_query := cleanQuery; req_key := cacheKey;
                   req_status := InFlight |}])
        (Some controller) w
  end.

(** What the awaited [fetch] and [response.json()] can deliver. *)
Inductive outcome :=
| NetworkError
| NotOk
| BadBody
| Docs (docs : list doc).

(** The rest of [fetchBooks], run when the response of request [r] is
    there: rank, cache and show the results, or on an error other than an
    abort show none; [finally] the spinner stops. *)
Definition fetchBooks_resume (r : request) (o : outcome) (w : world) : world :=
  let shown :=
    match o with
    | Docs docs =>
        match rankResults (req_query r) docs with
        | Some results =>
            setIsOpen true (setSuggestions results (cacheSet (req_key r) results w))
        | None => setSuggestions [] w
        end
    | _ => setSuggestions [] w
    end in
  setIsLoading false shown.

(** The rest of [fetchBooks] for an aborted request: the [AbortError] is
    swallowed, [finally] the spinner stops. *)
Definition fetchBooks_aborted (w : world) : world := setIsLoading false w.

(** *** handleInputChange and the other handlers *)

Definition clearTimeout (id : nat) (ts : list timer) : list timer :=
  List.filter (fun t => negb (timer_id t =? id)%nat) ts.

Definition handleInputChange (value : string) (w : world) : world :=
  let w := setActiveIndex (-1) (setQuery value w) in
  let ts := match debounceTimerRef w with
            | Some id => clearTimeout id (timers w)
            | None => timers w
            end in
  let w := with_timers ts (debounceTimerRef w) (nextTimerId w) w in
  if Js.length (Js.trim value) <? 2
  then setIsLoading false (setIsOpen false (setSuggestions [] w))
  else
    let w := setIsLoading true w in
    let id := nextTimerId w in
    with_timers
      (timers w ++ [{| timer_id := id; timer_due := now w + 200;
                       timer_value := value |}])
      (Some id) (S id) w.

Section Handlers.

(** The commands of the host page, and the [onSelect] prop. *)
Context {Cmd : Type} (onSelect : option (suggestion -> list Cmd)).

(** [selectSuggestion(book)]; [book.title] becomes the query, so the
    book must have one. *)
Definition selectSuggestion (book : suggestion) (w : world)
    : option (world * list Cmd) :=
  t ← title book;
  Some (setActiveIndex (-1) (setIsOpen false (setSuggestions [] (setQuery t w))),
        match onSelect with Some f => f book | None => [] end).

Definition handleKeyDown (key : string) (w : world) : option (world * list Cmd) :=
  let s := st w in
  let n := Z.of_nat (List.length (suggestions s)) in
  if negb (isOpen s) || (n =? 0) then Some (w, [])
  else if String.eqb key "ArrowDown"
  then Some (setActiveIndex
               (if activeIndex s <? n - 1 then activeIndex s + 1 else 0) w, [])
  else if String.eqb key "ArrowUp"
  then Some (setActiveIndex
               (if 0 <? activeIndex s then activeIndex s - 1 else n - 1) w, [])
  else if String.eqb key "Enter" || String.eqb key "Tab"
  then if (0 <=? activeIndex s) && (activeIndex s <? n)
       then book ← suggestions s !! Z.to_nat (activeIndex s);
            selectSuggestion book w
       else Some (w, [])
  else if String.eqb key "Escape"
  then Some (setActiveIndex (-1) (setIsOpen false w), [])
  else Some (w, []).

Definition handleFocus (w : world) : world :=
  let w := setIsFocused true w in
  if (2 <=? Js.length (Js.trim (query (st w))))
     && (0 <? Z.of_nat (List.length (suggestions (st w))))
  then setIsOpen true w else w.

(** What can happen to the mounted component. *)
Inductive event :=
| Change (value : string)
| KeyDown (key : string)
| Focus
| Blur
| Click (index : nat)
| MouseEnter (index : nat)
| MouseDownOutside
| DebounceFire (id : nat)
| Respond (id : nat) (o : outcome)
| AbortHandled (id : nat)
| TypewriterFire
| Elapse (dt : Z).

(** The handler of an event, [None] when the event cannot happen in [w]:
    a timer fires when it is pending and due, a response arrives for a
    request in flight, a suggestion is clicked when it is on display. *)
Definition handle (e : event) (w : world) : option (world * list Cmd) :=
  match e with
  | Change value => Some (handleInputChange value w, [])
  | KeyDown k => handleKeyDown k w
  | Focus => Some (handleFocus w, [])
  | Blur => Some (setIsFocused false w, [])
  | Click index =>
      if isOpen (st w)
      then book ← suggestions (st w) !! index; selectSuggestion book w
      else None
  | MouseEnter index =>
      if isOpen (st w) && (index <? List.length (suggestions (st w)))%nat
      then Some (setActiveIndex (Z.of_nat index) w, [])
      else None
  | MouseDownOutside => Some (setIsOpen false w, [])
  | DebounceFire id =>
      t ← List.find (fun t => (timer_id t =? id)%nat) (timers w);
      if timer_due t <=? now w
      then Some (fetchBooks (timer_value t)
                   (with_timers (clearTimeout id (timers w))
                      (debounceTimerRef w) (nextTimerId w) w), [])
      else None
  | Respond id o =>
      r ← requests w !! id;
      match req_status r with
      | InFlight =>
          Some (fetchBooks_resume r o
                  (with_requests (settle id (requests w)) (abortControllerRef w) w),
                [])
      | _ => None
      end
  | AbortHandled id =>
      r ← requests w !! id;
      match req_status r with
      | Aborted =>
          Some (fetchBooks_aborted
                  (with_requests (settle id (requests w)) (abortControllerRef w) w),
                [])
      | _ => None
      end
  | TypewriterFire =>
      '(due, a) ← typewriter w;
      if due <=? now w
      then Some (applyTypewriter a (with_typewriter None w), [])
      else None
  | Elapse dt => if 0 <=? dt then Some (with_now (now w + dt) w, []) else None
  end.

(** One turn of the event loop: the handler, then the render. *)
Definition step (e : event) (w : world) : option (world * list Cmd) :=
  '(w', cmds) ← handle e w; Some (rerender (st w) w', cmds).

Fixpoint run (es : list event) (w : world) : option (world * list Cmd) :=
  match es with
  | [] => Some (w, [])
  | e :: es =>
      '(w1, c1) ← step e w;
      '(w2, c2) ← run es w1;
      Some (w2, c1 ++ c2)
  end.

End Handlers.

(** The component as mounted: the [useState] initial values, empty refs,
    and the first run of the typewriter effect; [cache] is the module-level
    [searchCache] at that time. *)
Definition initial_ui : ui :=
  {| query := ""; suggestions := []; isLoading := false; isOpen := false;
     activeIndex := -1; isFocused := false; displayPlaceholder := "";
     isTyping := true |}.

Definition mount (cache : gmap string (list suggestion)) (t0 : Z) : world :=
  {| st := initial_ui; abortControllerRef := None; debounceTimerRef := None;
     searchCache := cache; requests := []; timers := []; nextTimerId := 1;
     now := t0;
     typewriter := prod_map (Z.add t0) id <$> typewriterEffect initial_ui |}.


(** *** What holds of the component at all times *)

Definition inFlight (r : request) : bool :=
  match req_status r with InFlight => true | _ => false end.

(** The request in flight is the one of the controller in the ref, and its
    key is not in the cache; the key of a request is its query in lower case,
    and the query has two characters or more. *)
Record requests_ok (w : world) : Prop := {
  flight_ref : forall id r,
    requests w !! id = Some r -> req_status r = InFlight ->
    abortControllerRef w = Some id;
  flight_miss : forall id r,
    requests w !! id = Some r -> req_status r = InFlight ->
    searchCache w !! req_key r = None;
  request_key : forall id r,
    requests w !! id = Some r ->
    req_key r = Js.toLowerCase (req_query r) /\ 2 <= Js.length (req_query r)
}.

(** A pending debounce timer is the one in the ref, for a value of two
    characters or more once trimmed, its identifier is below the next one to
    be given, and there is at most one. *)
Record timers_ok (w : world) : Prop := {
  timer_ref : forall t, t ∈ timers w -> debounceTimerRef w = Some (timer_id t);
  timer_long : forall t, t ∈ timers w -> 2 <= Js.length (Js.trim (timer_value t));
  timer_fresh : forall t, t ∈ timers w -> (timer_id t < nextTimerId w)%nat;
  timer_one : (List.length (timers w) <= 1)%nat
}.

(** The placeholder typed so far is a prefix of the text, and the pending
    typewriter timeout is the one the effect sets in the current state. *)
Record typewriter_ok (w : world) : Prop := {
  tw_prefix : Js.startsWith TYPEWRITER_TEXT (displayPlaceholder (st w)) = true;
  tw_timer : exists t0,
    t0 <= now w
    /\ typewriter w = prod_map (Z.add t0) id <$> typewriterEffect (st w)
}.

Definition invariant (w : world) : Prop :=
  requests_ok w /\ timers_ok w /\ typewriter_ok w.

End Autocomplete.


(** ** The values of a JSON body *)

Module Json.

#[warnings="-register-all"]
Inductive json :=
| JNull
| JBool (b : bool)
| JNum (n : Z)
| JStr (s : string)
| JArr (items : list json)
| JObj (fields : list (string * json)).

(** A JavaScript exception, by its [message]. *)
Inductive except (A : Type) :=
| Ok (a : A)
| Throw (message : string).
Arguments Ok {A} a.
Arguments Throw {A} message.

(** [v.name]: [undefined] ([None]) when [v] has no such field, a
    [TypeError] when [v] is [null] (the message is the one of V8). *)
Definition getProp (name : string) (v : json) : except (option json) :=
  match v with
  | JNull => Throw ("Cannot read properties of null (reading '" +:+ name +:+ "')")
  | JObj fields => Ok (snd <$> List.find (fun f => String.eqb (fst f) name) fields)
  | _ => Ok None
  end.

(** Truthiness of a value that may be [undefined]. *)
Definition truthy (v : option json) : bool :=
  match v with
  | None | Some JNull => false
  | Some (JBool b) => b
  | Some (JNum n) => negb (n =? 0)
  | Some (JStr s) => negb (String.eqb s "")
  | Some (JArr _) | Some (JObj _) => true
  end.

Definition join (sep : string) (l : list string) : string :=
  match l with
  | [] => ""
  | x :: r => fold_left (fun acc y => acc +:+ sep +:+ y) r x
  end.

(** [String(v)], as a template literal and [new Error(v)] apply it. *)
Fixpoint toString (v : json) : string :=
  match v with
  | JNull => "null"
  | JBool true => "true"
  | JBool false => "false"
  | JNum n => NilZero.string_of_int (Z.to_int n)
  | JStr s => s
  | JArr items =>
      join "," (map (fun x => match x with JNull => "" | _ => toString x end) items)
  | JObj _ => "[object Object]"
  end.

Definition toStringOpt (v : option json) : string :=
  match v with
  | None => "undefined"
  | Some v => toString v
  end.

End Json.

(** ** main.jsx: the route table and the location *)

Module Router.

Inductive element := App | BookDetails | AudioPlayer.

Record route := { path : string; element_of : element }.

(** The children of [<Routes>]. *)
Definition routes : list route :=
  [ {| path := "/"; element_of := App |};
    {| path := "/book"; element_of := BookDetails |};
    {| path := "/player"; element_of := AudioPlayer |} ].

(** The object passed as [state] to [navigate]. *)
Record nav_state := {
  book : option Autocomplete.suggestion;
  pdfInfo : option Json.json;
  chapterInfo : option Json.json;
  scriptInfo : option Json.json
}.

Record location := { pathname : string; state : option nav_state }.

(** [navigate(to, { state })] *)
Inductive command := Navigate (to : string) (s : nav_state).

Definition navigate (c : command) (l : location) : location :=
  match c with
  | Navigate to s => {| pathname := to; state := Some s |}
  end.

(** The element rendered at a location: the first route whose path is the
    path name. Only the literal paths the program navigates to are
    modelled, not the pattern language of the router. *)
Definition matchRoutes (l : location) : option element :=
  element_of <$> List.find (fun r => String.eqb (path r) (pathname l)) routes.

End Router.

(** ** BookDetails.jsx: handleSummary *)

Module Details.
Import Json.

(** The address of a call: the end point under [http://localhost:8001/api/]
    and the [URLSearchParams]. *)
Record url := { endpoint : string; params : list (string * string) }.

Inductive body :=
| Parsed (v : json)
| Unparsable (message : string).

Record response := { ok : bool; body_of : body }.

(** What [await fetch(...)] gives: a rejection, say a network failure, or a
    response. *)
Inductive fetch_result :=
| Rejects (message : string)
| Resolves (r : response).

(** What the handler does to the world outside the component, in order. *)
Inductive effect :=
| Fetch (u : url)
| Returned (u : url) (r : fetch_result)
| Sleep (ms : Z)
| ConsoleError (message : string)
| Do (c : Router.command).

(** The [useState] cells of the page. *)
Record details := {
  isSearching : bool;
  searchStep : string;
  downloadError : option string
}.

Record world := {
  ds : details;
  log : list effect;
  calls : nat
}.

(** [new URLSearchParams({ title: book.title, author: book.authors || '' })]
    and the address of an end point with these parameters. An absent title
    is sent as the text "undefined". *)
Definition paramsOf (book : Autocomplete.suggestion) : list (string * string) :=
  [("title", default "undefined" (Autocomplete.title book));
   ("author", Autocomplete.authors book)].

Definition api (book : Autocomplete.suggestion) (name : string) : url :=
  {| endpoint := name; params := paramsOf book |}.

Section Handler.

(** The service: its answer to the [n]-th call of the run. *)
Context (server : nat -> url -> fetch_result).

(** State and exceptions. *)
Definition M (A : Type) : Type := world -> except A * world.

Definition ret {A} (a : A) : M A := fun w => (Ok a, w).

Definition bind {A B} (m : M A) (k : A -> M B) : M B :=
  fun w => match m w with
           | (Ok a, w') => k a w'
           | (Throw e, w') => (Throw e, w')
           end.

Definition throw {A} (message : string) : M A := fun w => (Throw message, w).

Definition try_catch {A} (m : M A) (h : string -> M A) : M A :=
  fun w => match m w with
           | (Ok a, w') => (Ok a, w')
           | (Throw e, w') => h e w'
           end.

Definition lift {A} (x : except A) : M A := fun w => (x, w).

Definition perform (e : effect) : M unit :=
  fun w => (Ok tt, {| ds := ds w; log := log w ++ [e]; calls := calls w |}).

Definition modify (f : details -> details) : M unit :=
  fun w => (Ok tt, {| ds := f (ds w); log := log w; calls := calls w |}).

#[local] Instance M_ret : MRet M := @ret.
#[local] Instance M_bind : MBind M := fun A B k m => bind m k.

Definition setIsSearching (v : bool) : M unit :=
  modify (fun d => {| isSearching := v; searchStep := searchStep d;
                      downloadError := downloadError d |}).

Definition setSearchStep (v : string) : M unit :=
  modify (fun d => {| isSearching := isSearching d; searchStep := v;
                      downloadError := downloadError d |}).

Definition setDownloadError (v : option string) : M unit :=
  modify (fun d => {| isSearching := isSearching d; searchStep := searchStep d;
                      downloadError := v |}).

(** [await fetch(u, { method: 'POST' })] *)
Definition fetch (u : url) : M response :=
  fun w =>
    let r := server (calls w) u in
    let w' := {| ds := ds w; log := log w ++ [Fetch u; Returned u r];
                 calls := S (calls w) |} in
    match r with
    | Rejects message => (Throw message, w')
    | Resolves resp => (Ok resp, w')
    end.

(** [await response.json()] *)
Definition json_of (r : response) : M json :=
  match body_of r with
  | Parsed v => ret v
  | Unparsable message => throw message
  end.

(** [await new Promise(r => setTimeout(r, ms))] *)
Definition sleep (ms : Z) : M unit := perform (Sleep ms).

(** The check after each call:
    [if (!response.ok) { const error = await response.json();
                         throw new Error(error.detail || fallback) }] *)
Definition ensureOk (r : response) (fallback : string) : M unit :=
  if ok r then ret tt
  else
    error ← json_of r;
    detail ← lift (getProp "detail" error);
    throw (if truthy detail then toStringOpt detail else fallback).

Definition handleSummary (book : Autocomplete.suggestion) : M unit :=
  setIsSearching true ;;
  setDownloadError None ;;
  try_catch
    (setSearchStep "Searching for book PDF..." ;;
     pdfResponse ← fetch (api book "find-pdf");
     ensureOk pdfResponse "Failed to find book" ;;
     pdfData ← json_of pdfResponse;
     cached ← lift (getProp "cached" pdfData);
     (if truthy cached then setSearchStep "Book found in library!"
      else
        pages ← lift (getProp "pages" pdfData);
        setSearchStep ("Downloaded book (" +:+ toStringOpt pages +:+ " pages)")) ;;
     sleep 500 ;;
     setSearchStep "Analyzing book structure with AI..." ;;
     sleep 300 ;;
     setSearchStep "Identifying Chapter 1 boundaries..." ;;
     chapterResponse ← fetch (api book "extract-chapter");
     ensureOk chapterResponse "Failed to extract chapter" ;;
     chapterData ← json_of chapterResponse;
     cached ← lift (getProp "cached" chapterData);
     (if truthy cached then setSearchStep "Chapter 1 ready!"
      else
        start_page ← lift (getProp "start_page" chapterData);
        end_page ← lift (getProp "end_page" chapterData);
        setSearchStep ("Extracted Chapter 1: pages " +:+ toStringOpt start_page
                       +:+ "-" +:+ toStringOpt end_page)) ;;
     sleep 500 ;;
     setSearchStep "Writing podcast script with AI..." ;;
     scriptResponse ← fetch (api book "generate-script");
     ensureOk scriptResponse "Failed to generate script" ;;
     scriptData ← json_of scriptResponse;
     setSearchStep "Podcast script ready!" ;;
     sleep 500 ;;
     perform (Do (Router.Navigate "/player"
                    {| Router.book := Some book;
                       Router.pdfInfo := Some pdfData;
                       Router.chapterInfo := Some chapterData;
                       Router.scriptInfo := Some scriptData |})))
    (fun message =>
       perform (ConsoleError message) ;;
       setDownloadError (Some message) ;;
       setIsSearching false).

End Handler.

(** The [useState] initial values. *)
Definition idle : details :=
  {| isSearching := false; searchStep := ""; downloadError := None |}.

(** A run of the handler from the page as it stands: the state cells as
    they are, nothing done yet. *)
Definition start (d : details) : world := {| ds := d; log := []; calls := 0 |}.

Definition run (server : nat -> url -> fetch_result)
    (book : Autocomplete.suggestion) (d : details) : world :=
  snd (handleSummary server book (start d)).

(** The end points called, in the order of the calls. *)
Definition fetched (l : list effect) : list string :=
  omap (fun e => match e with Fetch u => Some (endpoint u) | _ => None end) l.

Definition navigations (l : list effect) : list Router.command :=
  omap (fun e => match e with Do c => Some c | _ => None end) l.

(** A call that failed: a rejection, a response that is not ok, or a body
    that is not JSON. *)
Definition failed (r : fetch_result) : bool :=
  match r with
  | Rejects _ => true
  | Resolves resp =>
      negb (ok resp) || match body_of resp with Unparsable _ => true | Parsed _ => false end
  end.

(** An ok response with the JSON body [v]. *)
Definition okResponse (v : json) : fetch_result :=
  Resolves {| ok := true; body_of := Parsed v |}.

(** The run ended in the [catch] block with the message [m], after the
    effects [before]. *)
Definition caught (m : string) (before : list effect) (w : world) : Prop :=
  log w = before ++ [ConsoleError m]
  /\ downloadError (ds w) = Some m
  /\ isSearching (ds w) = false.

(** The error block of the page: [{downloadError && (...)}] shows the
    message unless it is empty. *)
Definition errorShown (d : details) : option string :=
  match downloadError d with
  | Some m => if String.eqb m "" then None else Some m
  | None => None
  end.

End Details.

(** ** AudioPlayer.jsx: parseScript *)

Module Player.

Record dialogue := { speaker : string; text : string }.

(** The literal part of the pattern under the flag [i]: the rest of [s]
    when [s] begins with [pat] up to the case of letters. *)
Fixpoint matchLiteral (pat s : string) : option string :=
  match pat, s with
  | EmptyString, _ => Some s
  | String _ _, EmptyString => None
  | String p pat', String c s' =>
      if Ascii.eqb (Js.toLowerChar c) (Js.toLowerChar p) then matchLiteral pat' s'
      else None
  end.

(** [.+] at the head of [s]: the longest run of characters other than line
    terminators, which must not be empty. *)
Fixpoint dotRun (s : string) : string :=
  match s with
  | EmptyString => EmptyString
  | String c r => if Js.isLineTerminator c then EmptyString else String c (dotRun r)
  end.

Definition dotPlus (s : string) : option string :=
  match dotRun s with
  | EmptyString => None
  | t => Some t
  end.

(** [\s*(.+)]: the star is greedy and gives white space back, one
    character at a time, when the group finds nothing to match. *)
Fixpoint spacesThenGroup (s : string) : option string :=
  match s with
  | EmptyString => None
  | String c r =>
      if Js.isWhiteSpace c
      then match spacesThenGroup r with
           | Some t => Some t
           | None => dotPlus s
           end
      else dotPlus s
  end.

(** [line.match(/^Naval:\s*(.+)/i)] with [name] for Naval: the group. *)
Definition matchSpeaker (name : string) (line : string) : option string :=
  rest ← matchLiteral (name +:+ ":") line; spacesThenGroup rest.

(** [script.split('\n')] *)
Fixpoint splitLines (s : string) : list string :=
  match s with
  | EmptyString => [EmptyString]
  | String c r =>
      if Ascii.eqb c "010"%char then EmptyString :: splitLines r
      else match splitLines r with
           | l :: ls => String c l :: ls
           | [] => [String c EmptyString]
           end
  end.

(** [dialogues[dialogues.length - 1].text += ' ' + line.trim()] *)
Definition appendToLast (dialogues : list dialogue) (line : string) : list dialogue :=
  alter (fun d => {| speaker := speaker d;
                     text := text d +:+ " " +:+ Js.trim line |})
        (List.length dialogues - 1)%nat dialogues.

(** The body of the loop. *)
Definition parseLine (dialogues : list dialogue) (line : string) : list dialogue :=
  match matchSpeaker "Naval" line with
  | Some t => dialogues ++ [{| speaker := "Naval"; text := t |}]
  | None =>
      match matchSpeaker "Chris" line with
      | Some t => dialogues ++ [{| speaker := "Chris"; text := t |}]
      | None =>
          if negb (String.eqb (Js.trim line) "") && negb (Js.startsWith line "=")
          then if (0 <? List.length dialogues)%nat
               then appendToLast dialogues line
               else dialogues
          else dialogues
      end
  end.

(** [script.split('\n').filter(line => line.trim())] *)
Definition scriptLines (script : string) : list string :=
  List.filter (fun line => negb (String.eqb (Js.trim line) "")) (splitLines script).

Definition parseScript (script : option string) : list dialogue :=
  match script with
  | None => []
  | Some script =>
      if String.eqb script "" then []
      else
        let lines := scriptLines script in
        fold_left parseLine lines []
  end.

(** The two speakers. *)
Definition named (d : dialogue) : Prop := speaker d = "Naval" \/ speaker d = "Chris".

(** Read from the sentence of the specification: a line that begins with
    [Naval:] or [Chris:], whatever the case of the letters, is a speaker
    line, and what follows the colon and the white space after it is its
    text. *)
Definition spec_speakerLine (name : string) (line : string) : option string :=
  Js.trimStart <$> matchLiteral (name +:+ ":") line.

Definition spec_parseLine (dialogues : list dialogue) (line : string) : list dialogue :=
  match spec_speakerLine "Naval" line with
  | Some t => dialogues ++ [{| speaker := "Naval"; text := t |}]
  | None =>
      match spec_speakerLine "Chris" line with
      | Some t => dialogues ++ [{| speaker := "Chris"; text := t |}]
      | None =>
          if negb (String.eqb (Js.trim line) "") && negb (Js.startsWith line "=")
          then if (0 <? List.length dialogues)%nat
               then appendToLast dialogues line
               else dialogues
          else dialogues
      end
  end.

End Player.

(** ** App.jsx: the home page *)

Module Home.

(** [handleBookSelect]: [navigate('/book', { state: { book } })] *)
Definition handleBookSelect (book : Autocomplete.suggestion) : list Router.command :=
  [Router.Navigate "/book"
     {| Router.book := Some book; Router.pdfInfo := None;
        Router.chapterInfo := None; Router.scriptInfo := None |}].

(** The tree that [App] returns: tags with their class and children, text,
    and the one component it mounts, with its [onSelect] prop. *)
#[warnings="-register-all"]
Inductive node :=
| Tag (name className : string) (children : list node)
| Text (s : string)
| BookAutocomplete (onSelect : option (Autocomplete.suggestion -> list Router.command)).

Definition titleLetters : list string :=
  ["P"; "o"; "d"; "c"; "a"; "s"; "t"; "i"; "f"; "y"].

Definition App (showContent : bool) : node :=
  Tag "div" "homepage"
    [ Tag "div" "background-overlay" [];
      Tag "div" "background-image" [];
      Tag "div" (if showContent then "content visible" else "content ")
        [ Tag "h1" "title glitch-wrapper"
            [ Tag "span" "title-text"
                (imap (fun index letter =>
                         Tag "span"
                           (if (index <? 7)%nat then "title-letter podcast-letter"
                            else "title-letter ify-letter")
                           [Text letter]) titleLetters);
              Tag "span" "glitch-layer glitch-1" [Text "Podcastify"];
              Tag "span" "glitch-layer glitch-2" [Text "Podcastify"] ];
          Tag "p" "tagline" [Text "Convert any book into a podcast"];
          Tag "div" "search-container" [BookAutocomplete (Some handleBookSelect)] ] ].

(** The [onSelect] props of the components mounted in a tree. *)
Fixpoint widgets (n : node)
    : list (option (Autocomplete.suggestion -> list Router.command)) :=
  match n with
  | Tag _ _ children => flat_map widgets children
  | Text _ => []
  | BookAutocomplete onSelect => [onSelect]
  end.

(** The book that [BookDetails] and [AudioPlayer] read:
    [location.state?.book]. *)
Definition bookOf (l : Router.location) : option Autocomplete.suggestion :=
  s ← Router.state l; Router.book s.

(** The application at the home page: the location of the router and the
    mounted search widget. An event of the widget is handled with the
    [onSelect] that [App] passes, and the commands it issues go to the
    router. *)
Record app := {
  location : Router.location;
  widget : Autocomplete.world
}.

Definition dispatch (e : Autocomplete.event) (a : app) : option app :=
  onSelect ← head (widgets (App true));
  '(w, cmds) ← Autocomplete.step onSelect e (widget a);
  Some {| location := fold_left (fun l c => Router.navigate c l) cmds (location a);
          widget := w |}.

End Home.

(** ** Sample data *)

Module Samples.
Import Autocomplete.

Definition book (t : string) (editions : Z) : doc :=
  {| doc_title := Some t; doc_author_name := Some ["Frank Herbert"];
     doc_first_publish_year := Some 1965; doc_key := Some "/works/OL893415W";
     doc_cover_i := None; doc_isbn := None;
     doc_edition_count := Some editions; doc_ratings_average := None |}.

Definition dune : suggestion := scoreBook "dune" (book "Dune" 120).


Definition shelf : list doc :=
  [book "Dune Messiah" 30; book "Dune" 120; book "dune!" 3].

(** The user types [du], waits, and the search starts. *)
Definition typing : list event :=
  [Change "du"; Elapse 200; DebounceFire 1].

(** The placeholder animation runs for two characters. *)
Definition idling : list event :=
  [Elapse 80; TypewriterFire; Elapse 80].

(** A service that is down. *)
Definition down (n : nat) (u : Details.url) : Details.fetch_result :=
  Details.Rejects "Failed to fetch".

End Samples.

(** ** BookAutocomplete.jsx: the unmount cleanup and what is on display *)

Module Lifecycle.
Import Autocomplete.

(** The cleanups that React runs when the component unmounts: the one of the
    typewriter effect clears its timeout, and the one of the last effect does
    [if (debounceTimerRef.current) clearTimeout(debounceTimerRef.current)]
    and [if (abortControllerRef.current) abortControllerRef.current.abort()]. *)
Definition unmount (w : world) : world :=
  let ts := match debounceTimerRef w with
            | Some id => clearTimeout id (timers w)
            | None => timers w
            end in
  let rs := match abortControllerRef w with
            | Some id => abort id (requests w)
            | None => requests w
            end in
  with_typewriter None
    (with_requests rs (abortControllerRef w)
       (with_timers ts (debounceTimerRef w) (nextTimerId w) w)).

(** A list of suggestions as the ranking makes them: every entry has a
    title, and there are at most 6. *)
Definition listed (l : list suggestion) : Prop :=
  Forall titled l /\ (List.length l <= 6)%nat.

(** The list on display and the lists in the cache are such lists, and the
    active index is -1 or more. *)
Definition display_ok (w : world) : Prop :=
  listed (suggestions (st w))
  /\ (forall k v, searchCache w !! k = Some v -> listed v)
  /\ -1 <= activeIndex (st w).

(** Something is under way: a debounce timer is pending, or a request was
    started whose continuation has not run yet. *)
Definition busy (w : world) : Prop :=
  timers w <> []
  \/ exists id r, requests w !! id = Some r /\ req_status r <> Settled.

(** The typewriter timeout fires [k] times, each time as soon as it is due
    when it takes [delay] ms. *)
Fixpoint ticks (delay : Z) (k : nat) : list event :=
  match k with
  | O => []
  | S k => Elapse delay :: TypewriterFire :: ticks delay k
  end.

(** One round of the animation: the text is typed, stays, is deleted, and
    the empty placeholder stays. *)
Definition cycle : list event :=
  ticks TYPING_SPEED 22 ++ ticks PAUSE_AFTER_TYPE 1
  ++ ticks DELETING_SPEED 22 ++ ticks PAUSE_AFTER_DELETE 1.

(** The state cells of a component that is left alone: nothing typed, no
    focus, the placeholder [p] and the phase [typing]. *)
Definition resting (p : string) (typing : bool) : ui :=
  {| query := ""; suggestions := []; isLoading := false; isOpen := false;
     activeIndex := -1; isFocused := false; displayPlaceholder := p;
     isTyping := typing |}.

(** Such a component at time [t], its typewriter timeout just set. *)
Definition leftAlone (cache : gmap string (list suggestion)) (p : string) (typing : bool)
    (t : Z) : world :=
  {| st := resting p typing; abortControllerRef := None; debounceTimerRef := None;
     searchCache := cache; requests := []; timers := []; nextTimerId := 1;
     now := t;
     typewriter := prod_map (Z.add t) id <$> typewriterEffect (resting p typing) |}.

(** The entry of the cache for the key [k] is the ranking of the documents
    of a response to a query of two characters or more. *)
Definition ranked (k : string) (v : list suggestion) : Prop :=
  exists q docs,
    k = Js.toLowerCase q /\ 2 <= Js.length q /\ rankResults q docs = Some v.

End Lifecycle.

(** ** BookDetails.jsx and AudioPlayer.jsx: the cover of the book *)

Module Covers.
Import Autocomplete.

(** [`${n}`] for an integer. (JavaScript switches to the exponent notation
    from 1e21 on; identifiers of covers are far below.) *)
Definition showZ (n : Z) : string := NilZero.string_of_int (Z.to_int n).

(** A string that may be absent, as a condition: the absent and the empty
    string are falsy. *)
Definition truthyStr (s : option string) : bool :=
  match s with
  | Some s => negb (String.eqb s "")
  | None => false
  end.

(** [s.split(sep)] for a separator of one character. *)
Fixpoint splitOn (sep : ascii) (s : string) : list string :=
  match s with
  | EmptyString => [EmptyString]
  | String c r =>
      if Ascii.eqb c sep then EmptyString :: splitOn sep r
      else match splitOn sep r with
           | p :: ps => String c p :: ps
           | [] => [String c EmptyString]
           end
  end.

(** [book.key.split('/').pop()] *)
Definition olidOf (key : string) : string :=
  List.last (splitOn "/"%char key) EmptyString.

(** [book.isbn?.[0]] *)
Definition firstIsbn (book : suggestion) : option string :=
  l ← isbn book; head l.

(** [getCoverUrl(size)] of [BookDetails]: by cover identifier, else by the
    first ISBN, else by the Open Library identifier at the end of the key,
    else [null]. *)
Definition getCoverUrl (book : suggestion) (size : string) : option string :=
  if truthyZ (cover_i book)
  then Some ("https://covers.openlibrary.org/b/id/"
             +:+ showZ (default 0 (cover_i book)) +:+ "-" +:+ size +:+ ".jpg")
  else if truthyStr (firstIsbn book)
  then Some ("https://covers.openlibrary.org/b/isbn/"
             +:+ default "" (firstIsbn book) +:+ "-" +:+ size +:+ ".jpg")
  else if truthyStr (key book)
  then Some ("https://covers.openlibrary.org/b/olid/"
             +:+ olidOf (default "" (key book)) +:+ "-" +:+ size +:+ ".jpg")
  else None.

(** [getCoverUrl()] of [AudioPlayer]: by cover identifier only. *)
Definition playerCoverUrl (book : suggestion) : option string :=
  if truthyZ (cover_i book)
  then Some ("https://covers.openlibrary.org/b/id/"
             +:+ showZ (default 0 (cover_i book)) +:+ "-M.jpg")
  else None.

(** What the cover container of [BookDetails] shows. *)
Record cover_view := {
  skeleton : bool;
  image : bool;
  placeholderCard : bool
}.

(** [{!imageLoaded && !imageError && coverUrl && ...}],
    [{coverUrl && !imageError && ...}] and
    [{(!coverUrl || imageError) && ...}]; a URL is a condition that holds
    unless it is absent or empty. *)
Definition coverContainer (coverUrl : option string) (imageLoaded imageError : bool)
    : cover_view :=
  {| skeleton := negb imageLoaded && negb imageError && truthyStr coverUrl;
     image := truthyStr coverUrl && negb imageError;
     placeholderCard := negb (truthyStr coverUrl) || imageError |}.

End Covers.

(** ** AudioPlayer.jsx: what the page reads from the navigation state *)

Module PlayerPage.
Import Json.

(** A line on which [navalMatch] or [chrisMatch] is not [null]. *)
Definition speakerLine (line : string) : bool :=
  match Player.matchSpeaker "Naval" line, Player.matchSpeaker "Chris" line with
  | None, None => false
  | _, _ => true
  end.

(** [scriptInfo?.script ? parseScript(scriptInfo.script) : []]. The optional
    chain gives [undefined] for an absent or [null] [scriptInfo]; a value
    that is no object has no such field; and [parseScript] calls
    [script.split], which only a string has: for any other truthy value the
    render throws a [TypeError] (the message is the one of V8). *)
Definition dialoguesOf (scriptInfo : option json) : except (list Player.dialogue) :=
  let script :=
    match scriptInfo with
    | Some (JObj fields) =>
        snd <$> List.find (fun f => String.eqb (fst f) "script") fields
    | _ => None
    end in
  if truthy script
  then match script with
       | Some (JStr s) => Ok (Player.parseScript (Some s))
       | _ => Throw "script.split is not a function"
       end
  else Ok [].

(** [const { book, pdfInfo, scriptInfo } = location.state || {}] *)
Definition scriptInfoOf (l : Router.location) : option json :=
  s ← Router.state l; Router.scriptInfo s.

(** [pdfInfo?.pages], which the page shows in front of the word "pages". *)
Definition pagesOf (l : Router.location) : option json :=
  match Router.state l with
  | Some {| Router.pdfInfo := Some (JObj fields) |} =>
      snd <$> List.find (fun f => String.eqb (fst f) "pages") fields
  | _ => None
  end.

(** A value as the child of an element: React shows a string or a number,
    shows nothing for a boolean, [null] or [undefined], goes through the
    items of an array, and rejects an object. *)
Fixpoint validChild (v : json) : bool :=
  match v with
  | JObj _ => false
  | JArr items => forallb validChild items
  | _ => true
  end.

(** The page: the error card when there is no book, else the player with
    the cover and the dialogue lines. *)
Inductive page :=
| NoBookSelected
| PlayerOf (book : Autocomplete.suggestion) (coverUrl : option string)
    (dialogues : list Player.dialogue).

(** The render. The dialogue lines are computed first; the placeholder of
    the cover, shown when there is no cover URL, reads
    [book.title.charAt(0)], a [TypeError] for a book without a title (the
    message is the one of V8); and React throws when the tree is mounted
    with an object for [pdfInfo?.pages] (its message is abridged). *)
Definition AudioPlayer (l : Router.location) : except page :=
  match Home.bookOf l with
  | None => Ok NoBookSelected
  | Some book =>
      let coverUrl := Covers.playerCoverUrl book in
      match dialoguesOf (scriptInfoOf l) with
      | Ok ds =>
          match coverUrl, Autocomplete.title book with
          | None, None =>
              Throw "Cannot read properties of undefined (reading 'charAt')"
          | _, _ =>
              if forallb validChild (option_list (pagesOf l))
              then Ok (PlayerOf book coverUrl ds)
              else Throw "Objects are not valid as a React child"
          end
      | Throw m => Throw m
      end
  end.

End PlayerPage.

(** ** More sample data *)

Module Scenes.
Import Autocomplete.

(** The search for [du] has been answered. *)
Definition answered : list event :=
  Samples.typing ++ [Respond 0 (Docs Samples.shelf)].

(** The component after the events [es], mounted at time 0 with an empty
    cache and no [onSelect]. *)
Definition after (es : list event) : world :=
  default (mount ∅ 0) (fst <$> run (Cmd := Router.command) None es (mount ∅ 0)).

(** The request for [du] is in flight. *)
Definition searching : world := after Samples.typing.

(** The suggestions for [du] are on display. *)
Definition browsing : world := after answered.

(** The user has typed [du], then [dun]: the request for [du] was aborted
    and the one for [dun] is in flight. *)
Definition retyped : list event :=
  Samples.typing ++ [Change "dun"; Elapse 200; DebounceFire 2].

Definition superseded : world := after retyped.

(** A service that has everything in its library, and answers every call
    with the same body. *)
Definition library : Json.json :=
  Json.JObj [("cached", Json.JBool true);
             ("script", Json.JStr ("Naval: Read it." +:+ String "010" "Chris: I will."))].

Definition ready (n : nat) (u : Details.url) : Details.fetch_result :=
  Details.okResponse library.

End Scenes.

(** * Properties *)

Example split_ws_examples :
  Js.split_ws "the  lord of" = ["the"; "lord"; "of"]
  /\ Js.split_ws " a " = [""; "a"; ""]
  /\ Js.split_ws "" = [""]
  /\ Js.trim "  Dune  " = "Dune"
  /\ Js.toLowerCase "DuNe 2" = "dune 2"
  /\ Js.includes "the hobbit" "hob" = true
  /\ Js.includes "the hobbit" "hot" = false.
Proof. repeat split; reflexivity. Qed.

(** ** calculateTitleMatch *)

Section TitleMatch.
Import Autocomplete.

Lemma countStep_le titleWords acc qWord :
  (fst (countStep titleWords acc qWord) + snd (countStep titleWords acc qWord)
   <= S (fst acc + snd acc))%nat.
Proof.
  destruct acc as [m p]. unfold countStep.
  destruct (scanTitleWords qWord titleWords false) as [[] []]; simpl; lia.
Qed.

Lemma countMatches_from_le titleWords queryWords :
  forall acc,
    (fst (fold_left (countStep titleWords) queryWords acc)
     + snd (fold_left (countStep titleWords) queryWords acc)
     <= fst acc + snd acc + List.length queryWords)%nat.
Proof.
  induction queryWords as [|qWord rest IH]; intros acc; simpl.
  - lia.
  - specialize (IH (countStep titleWords acc qWord)).
    pose proof (countStep_le titleWords acc qWord). lia.
Qed.

Lemma countMatches_le queryWords titleWords m p :
  countMatches queryWords titleWords = (m, p) ->
  (m + p <= List.length queryWords)%nat.
Proof.
  unfold countMatches. intros H.
  pose proof (countMatches_from_le titleWords queryWords (0, 0)%nat) as Hle.
  rewrite H in Hle. simpl in Hle. lia.
Qed.

Lemma ratio_bounds k n : (0 < n)%nat -> (0 <= ratio k n)%Q.
Proof.
  intros Hn. unfold ratio.
  apply Qle_shift_div_l.
  - change 0%Q with (inject_Z 0). rewrite <- Zlt_Qlt. lia.
  - rewrite Qmult_0_l. change 0%Q with (inject_Z 0). rewrite <- Zle_Qle. lia.
Qed.

Lemma ratio_sum_le m p n :
  (0 < n)%nat -> (m + p <= n)%nat -> (ratio m n + ratio p n <= 1)%Q.
Proof.
  intros Hn Hle. unfold ratio.
  assert (Hpos : (0 < inject_Z (Z.of_nat n))%Q).
  { change 0%Q with (inject_Z 0). rewrite <- Zlt_Qlt. lia. }
  assert (Heq : (inject_Z (Z.of_nat m) / inject_Z (Z.of_nat n)
                 + inject_Z (Z.of_nat p) / inject_Z (Z.of_nat n)
                 == inject_Z (Z.of_nat (m + p)) / inject_Z (Z.of_nat n))%Q).
  { rewrite Nat2Z.inj_add, inject_Z_plus. field.
    intros H0. rewrite H0 in Hpos. revert Hpos. apply Qlt_irrefl. }
  rewrite Heq. apply Qle_shift_div_r; [exact Hpos|].
  rewrite Qmult_1_l. rewrite <- Zle_Qle. lia.
Qed.

Lemma Math_round_words m p n :
  (0 < n)%nat -> (m + p <= n)%nat ->
  0 <= Math_round (ratio m n * 70 + ratio p n * 20)%Q <= 70.
Proof.
  intros Hn Hle.
  pose proof (ratio_bounds m n Hn) as Hm.
  pose proof (ratio_bounds p n Hn) as Hp.
  pose proof (ratio_sum_le m p n Hn Hle) as Hs.
  unfold Math_round. split.
  - apply (Qfloor_resp_le 0). lra.
  - apply (Qfloor_resp_le _ (141 # 2)). lra.
Qed.


End TitleMatch.




(** ** The ranking pipeline of fetchBooks *)

Section Ranking.
Import Autocomplete.







(** *** The duplicates filter *)













(** *** The chain as a whole *)




End Ranking.


(** ** handleSummary *)

Lemma app_cons_eq_cons {A} (pre : list A) x post a l :
  pre ++ x :: post = a :: l ->
  (pre = [] /\ x = a /\ post = l)
  \/ exists pre', pre = a :: pre' /\ pre' ++ x :: post = l.
Proof.
  destruct pre as [|b pre']; simpl; intros [= Ha Hl]; subst; [left|right]; eauto.
Qed.

Lemma app_cons_eq_nil {A} (pre : list A) x post : pre ++ x :: post = [] -> False.
Proof. destruct pre; discriminate. Qed.

(** All the ways to cut a given list around one of its elements. *)
Ltac cuts H :=
  repeat match type of H with
         | _ ++ _ :: _ = [] => destruct (app_cons_eq_nil _ _ _ H)
         | _ ++ _ :: _ = _ :: _ =>
             apply app_cons_eq_cons in H as [(-> & ? & ->)|(? & -> & H)]
         end.

Section Summary.
Import Json Details.
Context (server : nat -> url -> fetch_result) (book : Autocomplete.suggestion)
        (d : details).

Ltac step_run :=
  match goal with
  | |- context [match ?x with _ => _ end] =>
      lazymatch x with
      | context [match _ with _ => _ end] => fail
      | server _ _ => destruct x as [?m|[[] [?v|?m]]] eqn:?
      | _ => destruct x eqn:?
      end
  end.

Ltac null_body :=
  match goal with
  | H : getProp _ ?v = Throw _ |- _ =>
      destruct v; simpl in H; try discriminate H; reflexivity
  end.

(** The four ways a run can go: it stops in the [catch] block after the
    first, the second or the third call, or it makes the three calls and
    navigates. *)
Lemma run_shape :
  let w := run server book d in
  let u1 := api book "find-pdf" in
  let u2 := api book "extract-chapter" in
  let u3 := api book "generate-script" in
  let r1 := server 0%nat u1 in
  let r2 := server 1%nat u2 in
  let r3 := server 2%nat u3 in
  (exists m, caught m [Fetch u1; Returned u1 r1] w
             /\ (failed r1 = true \/ r1 = okResponse JNull)
             /\ (forall m', r1 = Rejects m' -> m = m'))
  \/ (exists v1 m,
        r1 = okResponse v1
        /\ caught m [Fetch u1; Returned u1 r1; Sleep 500; Sleep 300;
                     Fetch u2; Returned u2 r2] w
        /\ (failed r2 = true \/ r2 = okResponse JNull)
        /\ (forall m', r2 = Rejects m' -> m = m'))
  \/ (exists v1 v2 m,
        r1 = okResponse v1 /\ r2 = okResponse v2
        /\ caught m [Fetch u1; Returned u1 r1; Sleep 500; Sleep 300;
                     Fetch u2; Returned u2 r2; Sleep 500;
                     Fetch u3; Returned u3 r3] w
        /\ failed r3 = true
        /\ (forall m', r3 = Rejects m' -> m = m'))
  \/ (exists v1 v2 v3,
        r1 = okResponse v1 /\ r2 = okResponse v2 /\ r3 = okResponse v3
        /\ log w = [Fetch u1; Returned u1 r1; Sleep 500; Sleep 300;
                    Fetch u2; Returned u2 r2; Sleep 500;
                    Fetch u3; Returned u3 r3; Sleep 500;
                    Do (Router.Navigate "/player"
                          {| Router.book := Some book;
                             Router.pdfInfo := Some v1;
                             Router.chapterInfo := Some v2;
                             Router.scriptInfo := Some v3 |})]
        /\ downloadError (ds w) = None
        /\ isSearching (ds w) = true).
Proof.
  cbv zeta. unfold run, handleSummary, caught, okResponse.
  unfold ensureOk, json_of, setIsSearching, setSearchStep, setDownloadError, sleep.
  unfold mbind, M_bind, bind, try_catch, fetch, lift, perform, modify, throw, ret, start.
  repeat (cbn -[api getProp truthy toStringOpt String.append]; step_run).
  all: cbn -[api getProp truthy toStringOpt String.append].
  all: first
    [ left; eexists; split; [repeat split; reflexivity|]; split;
      [ first [ left; reflexivity | right; null_body ]
      | first [ intros ? [= <-]; reflexivity | intros ? [=] ] ]
    | right; left; do 2 eexists; split; [reflexivity|];
      split; [repeat split; reflexivity|]; split;
      [ first [ left; reflexivity | right; null_body ]
      | first [ intros ? [= <-]; reflexivity | intros ? [=] ] ]
    | right; right; left; do 3 eexists; split; [reflexivity|];
      split; [reflexivity|]; split; [repeat split; reflexivity|];
      split; [reflexivity|];
      first [ intros ? [= <-]; reflexivity | intros ? [=] ]
    | right; right; right; do 3 eexists; repeat split; reflexivity ].
Qed.

Lemma navigates_when_ok v1 v2 v3 :
  server 0%nat (api book "find-pdf") = okResponse v1 ->
  server 1%nat (api book "extract-chapter") = okResponse v2 ->
  server 2%nat (api book "generate-script") = okResponse v3 ->
  v1 <> JNull -> v2 <> JNull ->
  navigations (log (run server book d))
  = [Router.Navigate "/player"
       {| Router.book := Some book; Router.pdfInfo := Some v1;
          Router.chapterInfo := Some v2; Router.scriptInfo := Some v3 |}].
Proof.
  intros H1 H2 H3 Hn1 Hn2.
  destruct run_shape as
    [(m & _ & Hf & _)
    |[(w1 & m & E1 & _ & Hf & _)
     |[(w1 & w2 & m & E1 & E2 & _ & Hf & _)
      |(w1 & w2 & w3 & E1 & E2 & E3 & Hlog & _)]]].
  - rewrite H1 in Hf. destruct Hf as [Hf|[= Hf]]; [discriminate|congruence].
  - rewrite H2 in Hf. destruct Hf as [Hf|[= Hf]]; [discriminate|congruence].
  - rewrite H3 in Hf. discriminate.
  - rewrite Hlog. rewrite H1 in E1. rewrite H2 in E2. rewrite H3 in E3.
    injection E1 as <-. injection E2 as <-. injection E3 as <-. reflexivity.
Qed.

(** C3. In a run of [handleSummary] the end points are called in the order
    find-pdf, extract-chapter, generate-script; a call returns before
    anything else is done, and when a call is issued every call before it has
    returned an ok response; the navigation, if there is one, is the last
    effect of the run, goes to [/player] after the three calls, and carries
    the book and the three bodies; and the three ok responses (with bodies
    other than [null], whose [cached] field is read) do lead to it. *)
Theorem handleSummary_sequential :
  let w := run server book d in
  fetched (log w) `prefix_of` ["find-pdf"; "extract-chapter"; "generate-script"]
  /\ (forall pre u post,
        log w = pre ++ Fetch u :: post ->
        (exists post', post = Returned u (server (List.length (fetched pre)) u) :: post')
        /\ forall u', In (Fetch u') pre -> exists v, In (Returned u' (okResponse v)) pre)
  /\ (forall pre c post,
        log w = pre ++ Do c :: post ->
        post = []
        /\ fetched pre = ["find-pdf"; "extract-chapter"; "generate-script"]
        /\ exists v1 v2 v3,
             c = Router.Navigate "/player"
                   {| Router.book := Some book; Router.pdfInfo := Some v1;
                      Router.chapterInfo := Some v2; Router.scriptInfo := Some v3 |}
             /\ In (Returned (api book "find-pdf") (okResponse v1)) pre
             /\ In (Returned (api book "extract-chapter") (okResponse v2)) pre
             /\ In (Returned (api book "generate-script") (okResponse v3)) pre)
  /\ (forall v1 v2 v3,
        server 0%nat (api book "find-pdf") = okResponse v1 ->
        server 1%nat (api book "extract-chapter") = okResponse v2 ->
        server 2%nat (api book "generate-script") = okResponse v3 ->
        v1 <> JNull -> v2 <> JNull ->
        navigations (log w)
        = [Router.Navigate "/player"
             {| Router.book := Some book; Router.pdfInfo := Some v1;
                Router.chapterInfo := Some v2; Router.scriptInfo := Some v3 |}]).
Proof.
  cbv zeta. split; [|split; [|split]]; [| | |apply navigates_when_ok].
  - destruct run_shape as
      [(m & (Hlog & _) & _)
      |[(w1 & m & E1 & (Hlog & _) & _)
       |[(w1 & w2 & m & E1 & E2 & (Hlog & _) & _)
        |(w1 & w2 & w3 & E1 & E2 & E3 & Hlog & _)]]]; rewrite Hlog; simpl.
    + by exists ["extract-chapter"; "generate-script"].
    + by exists ["generate-script"].
    + by exists [].
    + by exists [].
  - intros pre u post Hcut.
    destruct run_shape as
      [(m & (Hlog & _) & _)
      |[(w1 & m & E1 & (Hlog & _) & _)
       |[(w1 & w2 & m & E1 & E2 & (Hlog & _) & _)
        |(w1 & w2 & w3 & E1 & E2 & E3 & Hlog & _)]]];
      rewrite Hlog in Hcut; simpl in Hcut; symmetry in Hcut;
      try rewrite E1; try rewrite E2.
    all: cuts Hcut; try (exfalso; congruence).
    all: match goal with H : Fetch _ = Fetch _ |- _ => injection H as -> end.
    all: split; [eexists; reflexivity|].
    all: simpl; intros u' Hu'; intuition (try discriminate).
    all: match goal with H : Fetch _ = Fetch _ |- _ => injection H as <- end.
    all: try (rewrite E1; eauto 8).
    all: try (rewrite E2; eauto 12).
    all: eauto 12.
  - intros pre c post Hcut.
    destruct run_shape as
      [(m & (Hlog & _) & _)
      |[(w1 & m & E1 & (Hlog & _) & _)
       |[(w1 & w2 & m & E1 & E2 & (Hlog & _) & _)
        |(w1 & w2 & w3 & E1 & E2 & E3 & Hlog & _)]]];
      rewrite Hlog in Hcut; simpl in Hcut; symmetry in Hcut.
    all: cuts Hcut; try (exfalso; congruence).
    match goal with H : Do _ = Do _ |- _ => injection H as -> end.
    split; [done|]. split; [done|].
    exists w1, w2, w3. rewrite E1, E2, E3. simpl. intuition.
Qed.

(** C4. When a call of the run has failed - a rejection, a response that is
    not ok, a body that is not JSON - the run ends with that call: the
    message of the error is logged and stored in [downloadError], from where
    the page shows it unless it is empty, [isSearching] is false again, no end
    point was called twice and nothing is called after the failure, and there
    is no navigation. The message of a rejection is the stored one. *)
Theorem handleSummary_failure (u : url) (r : fetch_result) :
  let w := run server book d in
  In (Returned u r) (log w) ->
  failed r = true ->
  exists m before,
    log w = before ++ [Fetch u; Returned u r; ConsoleError m]
    /\ downloadError (ds w) = Some m
    /\ (m <> "" -> errorShown (ds w) = Some m)
    /\ isSearching (ds w) = false
    /\ navigations (log w) = []
    /\ NoDup (fetched (log w))
    /\ (forall m', r = Rejects m' -> m = m').
Proof.
  cbv zeta. intros Hin Hfail.
  assert (Hshown : forall m, downloadError (ds (run server book d)) = Some m ->
                             m <> "" -> errorShown (ds (run server book d)) = Some m).
  { intros m Hm Hne. unfold errorShown. rewrite Hm.
    destruct (String.eqb_spec m ""); [contradiction|reflexivity]. }
  assert (Hok : forall v, failed (okResponse v) = false) by reflexivity.
  destruct run_shape as
    [(m & (Hlog & He & Hs) & _ & Hm)
    |[(w1 & m & E1 & (Hlog & He & Hs) & _ & Hm)
     |[(w1 & w2 & m & E1 & E2 & (Hlog & He & Hs) & _ & Hm)
      |(w1 & w2 & w3 & E1 & E2 & E3 & Hlog & _)]]];
    rewrite Hlog in Hin |- *; simpl in Hin;
    repeat match type of Hin with
           | _ \/ _ => destruct Hin as [Hin|Hin]
           | False => destruct Hin
           end;
    try discriminate Hin; injection Hin as <- <-;
    try (rewrite E1 in Hfail; discriminate Hfail);
    try (rewrite E2 in Hfail; discriminate Hfail);
    try (rewrite E3 in Hfail; discriminate Hfail).
  - exists m, []. repeat split; auto. simpl. by apply (bool_decide_unpack _).
  - exists m, [Fetch (api book "find-pdf");
               Returned (api book "find-pdf") (server 0%nat (api book "find-pdf"));
               Sleep 500; Sleep 300].
    repeat split; auto. simpl. by apply (bool_decide_unpack _).
  - exists m, [Fetch (api book "find-pdf");
               Returned (api book "find-pdf") (server 0%nat (api book "find-pdf"));
               Sleep 500; Sleep 300;
               Fetch (api book "extract-chapter");
               Returned (api book "extract-chapter")
                 (server 1%nat (api book "extract-chapter"));
               Sleep 500].
    repeat split; auto. simpl. by apply (bool_decide_unpack _).
Qed.

End Summary.

(** ** The component: requests, timers and the typewriter *)

(** *** Strings *)

Lemma substring0_length s : forall m,
  String.length (String.substring 0 m s) = Nat.min m (String.length s).
Proof.
  induction s as [|c s IH]; intros [|m]; simpl; try reflexivity.
  by rewrite IH.
Qed.


Lemma startsWith_trans s : forall t u,
  Js.startsWith s t = true -> Js.startsWith t u = true -> Js.startsWith s u = true.
Proof.
  induction s as [|a s IH]; intros [|b t] [|c u]; simpl; try done.
  intros [Hab Hst]%andb_true_iff [Hbc Htu]%andb_true_iff.
  apply Ascii.eqb_eq in Hab, Hbc. subst. rewrite Ascii.eqb_refl. simpl. eauto.
Qed.

Lemma startsWith_substring0 s : forall m,
  Js.startsWith s (String.substring 0 m s) = true.
Proof.
  induction s as [|c s IH]; intros [|m]; simpl; try done.
  by rewrite Ascii.eqb_refl, IH.
Qed.

Lemma startsWith_length s : forall p,
  Js.startsWith s p = true ->
  (String.length p <= String.length s)%nat
  /\ (String.length p = String.length s -> p = s).
Proof.
  induction s as [|a s IH]; intros [|b p]; simpl; try done.
  - intros _. split; [lia|done].
  - intros [Hab Hsp]%andb_true_iff. apply Ascii.eqb_eq in Hab. subst.
    destruct (IH p Hsp) as [Hle Heq]. split; [lia|].
    intros [= Hl]. by rewrite (Heq Hl).
Qed.

(** The next prefix of [s] is the prefix [p] and one more character. *)
Lemma substring0_grow s : forall p,
  Js.startsWith s p = true -> (String.length p < String.length s)%nat ->
  exists c, String.substring 0 (S (String.length p)) s = p +:+ String c "".
Proof.
  induction s as [|a s IH]; intros [|b p]; simpl; try lia.
  - intros _ _. exists a. by destruct s.
  - intros [Hab Hsp]%andb_true_iff Hlt. apply Ascii.eqb_eq in Hab. subst.
    destruct (IH p Hsp) as [c Hc]; [lia|]. exists c. simpl. by rewrite Hc.
Qed.

(** A string that is not empty is its prefix without the last character,
    and that character. *)
Lemma substring0_init p : forall a,
  exists c, String a p
            = String.substring 0 (String.length p) (String a p) +:+ String c "".
Proof.
  induction p as [|b p IH]; intros a.
  - by exists a.
  - destruct (IH b) as [c Hc]. exists c.
    change (String a (String b p)
            = String a (String.substring 0 (String.length p) (String b p)
                        +:+ String c "")).
    by rewrite <- Hc.
Qed.

Lemma substring0_shrink p :
  p <> "" ->
  exists c, p = String.substring 0 (String.length p - 1) p +:+ String c "".
Proof.
  destruct p as [|a p]; [done|]. intros _.
  simpl String.length. rewrite Nat.sub_1_r. simpl Nat.pred. apply substring0_init.
Qed.

Lemma append_char_length p c :
  String.length (p +:+ String c "") = S (String.length p).
Proof. induction p as [|a p IH]; simpl; [done|]. by rewrite IH. Qed.

Lemma append_char_neq p c : p +:+ String c "" <> p.
Proof.
  intros H. apply (f_equal String.length) in H.
  rewrite append_char_length in H. lia.
Qed.

Lemma length_zero_empty s : Js.length s <= 0 -> s = "".
Proof. destruct s; [done|]. unfold Js.length. simpl. lia. Qed.

Lemma slice_grow s n :
  (n < String.length s)%nat ->
  Js.slice s 0 (Z.of_nat n + 1) = String.substring 0 (S n) s.
Proof.
  intros Hlt. unfold Js.slice, Js.sliceIndex, Js.length. simpl.
  destruct (Z.of_nat n + 1 <? 0) eqn:E; [lia|].
  rewrite Z.min_l by lia. rewrite Z.min_l by lia.
  simpl. f_equal. lia.
Qed.

Lemma slice_shrink s :
  Js.slice s 0 (-1) = String.substring 0 (String.length s - 1) s.
Proof.
  unfold Js.slice, Js.sliceIndex, Js.length. simpl.
  rewrite Z.min_l by lia. simpl. f_equal. lia.
Qed.

Section Machine.
Import Autocomplete.
Context {Cmd : Type} (onSelect : option (suggestion -> list Cmd)).

(** The render touches nothing but the typewriter timeout. *)
Lemma rerender_frame before w :
  st (rerender before w) = st w
  /\ abortControllerRef (rerender before w) = abortControllerRef w
  /\ debounceTimerRef (rerender before w) = debounceTimerRef w
  /\ searchCache (rerender before w) = searchCache w
  /\ requests (rerender before w) = requests w
  /\ timers (rerender before w) = timers w
  /\ now (rerender before w) = now w
  /\ nextTimerId (rerender before w) = nextTimerId w.
Proof. unfold rerender. destruct (deps_eqb _ _); repeat split. Qed.

Lemma requests_ok_ext w w' :
  abortControllerRef w' = abortControllerRef w ->
  searchCache w' = searchCache w ->
  requests w' = requests w ->
  requests_ok w -> requests_ok w'.
Proof.
  intros Hr Hc Hq [H1 H2 H3].
  split; rewrite ?Hr, ?Hc, ?Hq; assumption.
Qed.

Lemma selectSuggestion_frame book w w' cmds :
  selectSuggestion onSelect book w = Some (w', cmds) ->
  abortControllerRef w' = abortControllerRef w
  /\ debounceTimerRef w' = debounceTimerRef w
  /\ searchCache w' = searchCache w
  /\ requests w' = requests w
  /\ timers w' = timers w
  /\ now w' = now w
  /\ typewriter w' = typewriter w
  /\ displayPlaceholder (st w') = displayPlaceholder (st w)
  /\ isTyping (st w') = isTyping (st w)
  /\ nextTimerId w' = nextTimerId w.
Proof.
  unfold selectSuggestion. destruct (title book); simpl; [|discriminate].
  intros [= <- _]. repeat split.
Qed.

Lemma handleKeyDown_frame key w w' cmds :
  handleKeyDown onSelect key w = Some (w', cmds) ->
  abortControllerRef w' = abortControllerRef w
  /\ debounceTimerRef w' = debounceTimerRef w
  /\ searchCache w' = searchCache w
  /\ requests w' = requests w
  /\ timers w' = timers w
  /\ now w' = now w
  /\ typewriter w' = typewriter w
  /\ displayPlaceholder (st w') = displayPlaceholder (st w)
  /\ isTyping (st w') = isTyping (st w)
  /\ nextTimerId w' = nextTimerId w.
Proof.
  unfold handleKeyDown. intros H.
  repeat case_match; simplify_eq; try (repeat split; fail).
  destruct (suggestions (st w) !! _) eqn:E; simpl in H; [|discriminate].
  by apply selectSuggestion_frame in H.
Qed.

Lemma abort_lookup rid rs id r :
  abort rid rs !! id = Some r ->
  exists r0, rs !! id = Some r0
             /\ req_query r = req_query r0 /\ req_key r = req_key r0
             /\ (req_status r = InFlight -> req_status r0 = InFlight /\ id <> rid).
Proof.
  unfold abort. intros H. destruct (decide (rid = id)) as [->|Hne].
  - rewrite list_lookup_alter_eq in H.
    destruct (rs !! id) as [r0|]; simpl in H; [|discriminate].
    exists r0. split; [done|].
    destruct (req_status r0) eqn:E; simplify_eq; simpl; rewrite ?E;
      repeat split; try done; intros; congruence.
  - rewrite list_lookup_alter_ne in H by done. exists r. repeat split; eauto.
Qed.

Lemma settle_lookup sid rs id r :
  settle sid rs !! id = Some r ->
  exists r0, rs !! id = Some r0
             /\ req_query r = req_query r0 /\ req_key r = req_key r0
             /\ (req_status r = InFlight -> req_status r0 = InFlight /\ id <> sid).
Proof.
  unfold settle. intros H. destruct (decide (sid = id)) as [->|Hne].
  - rewrite list_lookup_alter_eq in H.
    destruct (rs !! id) as [r0|]; simpl in H; [|discriminate].
    exists r0. simplify_eq. simpl. repeat split; try done; intros; congruence.
  - rewrite list_lookup_alter_ne in H by done. exists r. repeat split; eauto.
Qed.

(** A cache miss leaves the new request alone in flight. *)
Lemma fetchBooks_miss searchQuery w :
  requests_ok w ->
  searchCache w !! Js.toLowerCase (Js.trim searchQuery) = None ->
  let w' := fetchBooks searchQuery w in
  exists aborted,
    List.length aborted = List.length (requests w)
    /\ (forall id r, aborted !! id = Some r -> req_status r <> InFlight)
    /\ requests w' = aborted ++ [{| req_query := Js.trim searchQuery;
                                    req_key := Js.toLowerCase (Js.trim searchQuery);
                                    req_status := InFlight |}]
    /\ abortControllerRef w' = Some (List.length (requests w))
    /\ searchCache w' = searchCache w.
Proof.
  intros Hok Hmiss. cbv zeta. unfold fetchBooks. rewrite Hmiss.
  set (rs := match abortControllerRef w with Some id => _ | None => _ end).
  assert (Hlen : List.length rs = List.length (requests w)).
  { unfold rs. destruct (abortControllerRef w); [apply length_alter|done]. }
  exists rs. split; [done|].
  split; [|split; [reflexivity|split; [exact (f_equal Some Hlen)|reflexivity]]].
  intros id r Hr Hs. unfold rs in Hr.
  destruct (abortControllerRef w) as [rid|] eqn:Href.
  - apply abort_lookup in Hr as (r0 & Hr0 & _ & _ & Hst).
    destruct (Hst Hs) as [Hs0 Hne].
    pose proof (flight_ref w Hok id r0 Hr0 Hs0). congruence.
  - pose proof (flight_ref w Hok id r Hr Hs). congruence.
Qed.

Lemma fetchBooks_requests_ok searchQuery w :
  requests_ok w -> 2 <= Js.length (Js.trim searchQuery) ->
  requests_ok (fetchBooks searchQuery w).
Proof.
  intros Hok Hlen.
  destruct (searchCache w !! Js.toLowerCase (Js.trim searchQuery)) as [cached|] eqn:Hc.
  - unfold fetchBooks. rewrite Hc. by apply (requests_ok_ext w).
  - destruct (fetchBooks_miss searchQuery w Hok Hc) as (rs & Hrs & Hno & Hreq & Href & Hcache).
    assert (Hold : forall id r, rs !! id = Some r ->
              req_key r = Js.toLowerCase (req_query r) /\ 2 <= Js.length (req_query r)).
    { intros id r Hr.
      assert (exists r0, requests w !! id = Some r0
                         /\ req_query r = req_query r0 /\ req_key r = req_key r0)
        as (r0 & Hr0 & -> & ->).
      { revert Hreq Hr. unfold fetchBooks. rewrite Hc. simpl.
        intros Hreq%app_inv_tail. rewrite <- Hreq.
        destruct (abortControllerRef w); [|eauto].
        intros (r0 & ? & ? & ? & _)%abort_lookup. eauto. }
      by apply (request_key w Hok id). }
    split; rewrite ?Hreq, ?Href, ?Hcache.
    + intros id r Hr Hs. apply lookup_snoc_Some in Hr as [[_ Hr]|[Hid <-]].
      * by destruct (Hno id r Hr).
      * by rewrite Hid, Hrs.
    + intros id r Hr Hs. apply lookup_snoc_Some in Hr as [[_ Hr]|[Hid <-]].
      * by destruct (Hno id r Hr).
      * done.
    + intros id r Hr. apply lookup_snoc_Some in Hr as [[_ Hr]|[Hid <-]].
      * by apply (Hold id).
      * done.
Qed.

Lemma handleInputChange_frame value w :
  abortControllerRef (handleInputChange value w) = abortControllerRef w
  /\ searchCache (handleInputChange value w) = searchCache w
  /\ requests (handleInputChange value w) = requests w
  /\ now (handleInputChange value w) = now w
  /\ typewriter (handleInputChange value w) = typewriter w
  /\ displayPlaceholder (st (handleInputChange value w)) = displayPlaceholder (st w)
  /\ isTyping (st (handleInputChange value w)) = isTyping (st w)
  /\ isFocused (st (handleInputChange value w)) = isFocused (st w)
  /\ query (st (handleInputChange value w)) = value.
Proof. unfold handleInputChange. destruct (_ <? 2); repeat split. Qed.

(** The events that start or end no request leave the requests, the
    controller and the cache as they are. *)
Lemma handle_quiet e w w' cmds :
  handle onSelect e w = Some (w', cmds) ->
  match e with
  | DebounceFire _ | Respond _ _ | AbortHandled _ => True
  | _ => abortControllerRef w' = abortControllerRef w
         /\ searchCache w' = searchCache w
         /\ requests w' = requests w
  end.
Proof.
  destruct e; simpl; intros H; try done.
  - injection H as <- _. pose proof (handleInputChange_frame value w). tauto.
  - apply handleKeyDown_frame in H. tauto.
  - injection H as <- _. unfold handleFocus. by destruct (_ && _).
  - by injection H as <- _.
  - destruct (isOpen (st w)); [|done].
    destruct (suggestions (st w) !! index); simpl in H; [|done].
    apply selectSuggestion_frame in H. tauto.
  - destruct (_ && _); [|done]. by injection H as <- _.
  - by injection H as <- _.
  - destruct (typewriter w) as [[due a]|]; simpl in H; [|done].
    destruct (due <=? now w); [|done]. injection H as <- _. by destruct a.
  - destruct (0 <=? dt); [|done]. by injection H as <- _.
Qed.

Lemma resume_requests_ok id r o w :
  requests_ok w -> requests w !! id = Some r -> req_status r = InFlight ->
  requests_ok
    (fetchBooks_resume r o
       (with_requests (settle id (requests w)) (abortControllerRef w) w)).
Proof.
  intros Hok Hr Hs.
  set (w1 := with_requests _ _ w).
  assert (Href : abortControllerRef (fetchBooks_resume r o w1) = abortControllerRef w).
  { unfold fetchBooks_resume. destruct o; try done. by destruct (rankResults _ _). }
  assert (Hreq : requests (fetchBooks_resume r o w1) = settle id (requests w)).
  { unfold fetchBooks_resume. destruct o; try done. by destruct (rankResults _ _). }
  assert (Hnone : forall id' r', settle id (requests w) !! id' = Some r' ->
                                 req_status r' <> InFlight).
  { intros id' r' (r0 & Hr0 & _ & _ & Hst)%settle_lookup Hs'.
    destruct (Hst Hs') as [Hs0 Hne].
    pose proof (flight_ref w Hok id r Hr Hs).
    pose proof (flight_ref w Hok id' r0 Hr0 Hs0). congruence. }
  split; rewrite ?Href, ?Hreq.
  - intros id' r' Hr' Hs'. by destruct (Hnone id' r' Hr').
  - intros id' r' Hr' Hs'. by destruct (Hnone id' r' Hr').
  - intros id' r' (r0 & Hr0 & -> & -> & _)%settle_lookup.
    by apply (request_key w Hok id').
Qed.

Lemma aborted_requests_ok id r w :
  requests_ok w -> requests w !! id = Some r ->
  requests_ok
    (fetchBooks_aborted
       (with_requests (settle id (requests w)) (abortControllerRef w) w)).
Proof.
  intros Hok Hr. split; simpl.
  - intros id' r' (r0 & Hr0 & _ & _ & Hst)%settle_lookup Hs'.
    destruct (Hst Hs') as [Hs0 _]. by apply (flight_ref w Hok id' r0).
  - intros id' r' (r0 & Hr0 & _ & Hk & Hst)%settle_lookup Hs'.
    destruct (Hst Hs') as [Hs0 _]. rewrite Hk. by apply (flight_miss w Hok id' r0).
  - intros id' r' (r0 & Hr0 & -> & -> & _)%settle_lookup.
    by apply (request_key w Hok id').
Qed.

Lemma find_timer id ts t :
  List.find (fun t => (timer_id t =? id)%nat) ts = Some t -> t ∈ ts /\ timer_id t = id.
Proof.
  intros H. apply find_some in H as [Hin Hid].
  split; [by apply list_elem_of_In|]. by apply Nat.eqb_eq.
Qed.

Lemma handle_requests_ok e w w' cmds :
  requests_ok w -> timers_ok w ->
  handle onSelect e w = Some (w', cmds) -> requests_ok w'.
Proof.
  intros Hok Htm H. pose proof (handle_quiet e w w' cmds H) as Hq.
  destruct e; try (apply (requests_ok_ext w); tauto); simpl in H.
  - destruct (List.find _ _) as [t|] eqn:Ht; simpl in H; [|done].
    destruct (timer_due t <=? now w); [|done]. injection H as <- _.
    apply find_timer in Ht as [Ht _].
    apply fetchBooks_requests_ok; [|by apply (timer_long w Htm)].
    by apply (requests_ok_ext w).
  - destruct (requests w !! id) as [r|] eqn:Hr; simpl in H; [|done].
    destruct (req_status r) eqn:Hs; try done. injection H as <- _.
    by apply resume_requests_ok.
  - destruct (requests w !! id) as [r|] eqn:Hr; simpl in H; [|done].
    destruct (req_status r) eqn:Hs; try done. injection H as <- _.
    by apply (aborted_requests_ok id r).
Qed.

(** An entry of the cache is never replaced. *)
Lemma handle_cache_kept e w w' cmds k v :
  requests_ok w ->
  handle onSelect e w = Some (w', cmds) ->
  searchCache w !! k = Some v -> searchCache w' !! k = Some v.
Proof.
  intros Hok H Hk. pose proof (handle_quiet e w w' cmds H) as Hq.
  destruct e; try (destruct Hq as (_ & -> & _); exact Hk); simpl in H.
  - destruct (List.find _ _) as [t|]; simpl in H; [|done].
    destruct (timer_due t <=? now w); [|done]. injection H as <- _.
    unfold fetchBooks. simpl. by destruct (searchCache w !! Js.toLowerCase _).
  - destruct (requests w !! id) as [r|] eqn:Hr; simpl in H; [|done].
    destruct (req_status r) eqn:Hs; try done. injection H as <- _.
    unfold fetchBooks_resume. destruct o; try done.
    destruct (rankResults _ _); [|done]. simpl.
    rewrite lookup_insert_ne; [done|].
    intros <-. pose proof (flight_miss w Hok id r Hr Hs). congruence.
  - destruct (requests w !! id) as [r|]; simpl in H; [|done].
    destruct (req_status r); try done. by injection H as <- _.
Qed.

(** *** The debounce timer *)

Lemma timers_ok_ext w w' :
  debounceTimerRef w' = debounceTimerRef w -> timers w' = timers w ->
  nextTimerId w' = nextTimerId w ->
  timers_ok w -> timers_ok w'.
Proof. intros Hr Ht Hn [H1 H2 H3 H4]. split; rewrite ?Hr, ?Ht, ?Hn; assumption. Qed.

(** [clearTimeout] on the ref leaves no timer pending. *)
Lemma cleared w :
  timers_ok w ->
  match debounceTimerRef w with
  | Some id => clearTimeout id (timers w)
  | None => timers w
  end = [].
Proof.
  intros [Href _ _ Hone]. destruct (timers w) as [|t ts] eqn:Ht.
  - by destruct (debounceTimerRef w).
  - rewrite (Href t) by (rewrite ?Ht; apply elem_of_cons; by left).
    destruct ts; [|simpl in Hone; lia]. simpl. by rewrite Nat.eqb_refl.
Qed.

Lemma handleInputChange_timers value w :
  timers_ok w ->
  let w' := handleInputChange value w in
  if Js.length (Js.trim value) <? 2
  then timers w' = []
       /\ suggestions (st w') = [] /\ isOpen (st w') = false
       /\ isLoading (st w') = false
  else timers w' = [{| timer_id := nextTimerId w; timer_due := now w + 200;
                       timer_value := value |}]
       /\ debounceTimerRef w' = Some (nextTimerId w)
       /\ nextTimerId w' = S (nextTimerId w)
       /\ isLoading (st w') = true.
Proof.
  intros Hok. cbv zeta. unfold handleInputChange.
  pose proof (cleared w Hok) as Hc.
  destruct (Js.length (Js.trim value) <? 2); simpl; rewrite Hc; repeat split.
Qed.

Lemma handleInputChange_timers_ok value w :
  timers_ok w -> timers_ok (handleInputChange value w).
Proof.
  intros Hok. pose proof (handleInputChange_timers value w Hok) as H. cbv zeta in H.
  destruct (Js.length (Js.trim value) <? 2) eqn:Hlen.
  - destruct H as (Ht & _). split; rewrite Ht; simpl; try lia;
      intros t Hin; by apply elem_of_nil in Hin.
  - destruct H as (Ht & Hr & Hn & _). apply Z.ltb_ge in Hlen.
    split; rewrite Ht, ?Hn; simpl; try lia; intros t Hin;
      apply list_elem_of_singleton in Hin; subst t; simpl; [exact Hr|lia|lia].
Qed.

Lemma clearTimeout_elem id ts t : t ∈ clearTimeout id ts -> t ∈ ts.
Proof.
  unfold clearTimeout. rewrite !list_elem_of_In, filter_In. tauto.
Qed.

Lemma clearTimeout_length id ts :
  (List.length (clearTimeout id ts) <= List.length ts)%nat.
Proof. unfold clearTimeout. apply filter_length_le. Qed.

Lemma fetchBooks_timers q w :
  timers (fetchBooks q w) = timers w
  /\ debounceTimerRef (fetchBooks q w) = debounceTimerRef w
  /\ now (fetchBooks q w) = now w
  /\ typewriter (fetchBooks q w) = typewriter w
  /\ typewriterDeps (st (fetchBooks q w)) = typewriterDeps (st w)
  /\ nextTimerId (fetchBooks q w) = nextTimerId w.
Proof. unfold fetchBooks. by destruct (searchCache w !! _). Qed.

Lemma resume_timers r o w :
  timers (fetchBooks_resume r o w) = timers w
  /\ debounceTimerRef (fetchBooks_resume r o w) = debounceTimerRef w
  /\ now (fetchBooks_resume r o w) = now w
  /\ typewriter (fetchBooks_resume r o w) = typewriter w
  /\ typewriterDeps (st (fetchBooks_resume r o w)) = typewriterDeps (st w)
  /\ nextTimerId (fetchBooks_resume r o w) = nextTimerId w.
Proof.
  unfold fetchBooks_resume. destruct o; try done. by destruct (rankResults _ _).
Qed.

Lemma handle_timers_ok e w w' cmds :
  timers_ok w -> handle onSelect e w = Some (w', cmds) -> timers_ok w'.
Proof.
  intros Hok H. destruct e; simpl in H.
  - injection H as <- _. by apply handleInputChange_timers_ok.
  - apply handleKeyDown_frame in H. apply (timers_ok_ext w); tauto.
  - injection H as <- _. unfold handleFocus.
    destruct (_ && _); by apply (timers_ok_ext w).
  - injection H as <- _. by apply (timers_ok_ext w).
  - destruct (isOpen (st w)); [|done].
    destruct (suggestions (st w) !! index); simpl in H; [|done].
    apply selectSuggestion_frame in H. apply (timers_ok_ext w); tauto.
  - destruct (_ && _); [|done]. injection H as <- _. by apply (timers_ok_ext w).
  - injection H as <- _. by apply (timers_ok_ext w).
  - destruct (List.find _ _) as [t|]; simpl in H; [|done].
    destruct (timer_due t <=? now w); [|done]. injection H as <- _.
    destruct (fetchBooks_timers (timer_value t)
                (with_timers (clearTimeout id (timers w)) (debounceTimerRef w)
                   (nextTimerId w) w)) as (Ht & Hr & _ & _ & _ & Hn).
    destruct Hok as [H1 H2 H3 H4]. split; rewrite ?Ht, ?Hr, ?Hn; simpl.
    + intros t' Hin%clearTimeout_elem. by apply H1.
    + intros t' Hin%clearTimeout_elem. by apply H2.
    + intros t' Hin%clearTimeout_elem. by apply H3.
    + pose proof (clearTimeout_length id (timers w)). lia.
  - destruct (requests w !! id) as [r|]; simpl in H; [|done].
    destruct (req_status r); try done. injection H as <- _.
    set (w1 := with_requests _ _ w).
    destruct (resume_timers r o w1) as (Ht & Hr & _ & _ & _ & Hn).
    by apply (timers_ok_ext w).
  - destruct (requests w !! id) as [r|]; simpl in H; [|done].
    destruct (req_status r); try done. injection H as <- _.
    by apply (timers_ok_ext w).
  - destruct (typewriter w) as [[due a]|]; simpl in H; [|done].
    destruct (due <=? now w); [|done]. injection H as <- _.
    destruct a; by apply (timers_ok_ext w).
  - destruct (0 <=? dt); [|done]. injection H as <- _. by apply (timers_ok_ext w).
Qed.

(** *** The typewriter *)

Lemma deps_eqb_eq a b : deps_eqb a b = true <-> a = b.
Proof.
  destruct a as [[[p1 t1] q1] f1], b as [[[p2 t2] q2] f2]. simpl.
  rewrite !andb_true_iff, !String.eqb_eq, !Bool.eqb_true_iff.
  split; [intros [[[-> ->] ->] ->]; done|intros [= -> -> -> ->]; done].
Qed.

Lemma typewriterEffect_deps s s' :
  typewriterDeps s = typewriterDeps s' -> typewriterEffect s = typewriterEffect s'.
Proof.
  unfold typewriterDeps, typewriterEffect. by intros [= -> -> -> ->].
Qed.

(** What the pending timeout does, by the phase of the animation. *)
Lemma typewriterEffect_cases s delay a :
  Js.startsWith TYPEWRITER_TEXT (displayPlaceholder s) = true ->
  typewriterEffect s = Some (delay, a) ->
  query s = "" /\ isFocused s = false
  /\ ((isTyping s = true /\ displayPlaceholder s <> TYPEWRITER_TEXT
       /\ delay = TYPING_SPEED
       /\ exists c, a = TwSetDisplayPlaceholder (displayPlaceholder s +:+ String c "")
                    /\ Js.startsWith TYPEWRITER_TEXT
                         (displayPlaceholder s +:+ String c "") = true)
      \/ (isTyping s = true /\ displayPlaceholder s = TYPEWRITER_TEXT
          /\ delay = PAUSE_AFTER_TYPE /\ a = TwSetIsTyping false)
      \/ (isTyping s = false /\ displayPlaceholder s <> ""
          /\ delay = DELETING_SPEED
          /\ exists c p, a = TwSetDisplayPlaceholder p
                         /\ displayPlaceholder s = p +:+ String c ""
                         /\ Js.startsWith TYPEWRITER_TEXT p = true)
      \/ (isTyping s = false /\ displayPlaceholder s = ""
          /\ delay = PAUSE_AFTER_DELETE /\ a = TwSetIsTyping true)).
Proof.
  intros Hpre. unfold typewriterEffect.
  destruct (0 <? Js.length (query s)) eqn:Hq; [done|].
  destruct (isFocused s); [done|]. simpl.
  apply Z.ltb_ge, length_zero_empty in Hq.
  destruct (startsWith_length _ _ Hpre) as [Hle Heq].
  destruct (isTyping s).
  - destruct (Js.length (displayPlaceholder s) <? Js.length TYPEWRITER_TEXT) eqn:Hl;
      intros [= <- <-]; (split; [done|]); (split; [done|]).
    + left. apply Z.ltb_lt in Hl. unfold Js.length in Hl.
      assert (Hlt : (String.length (displayPlaceholder s)
                     < String.length TYPEWRITER_TEXT)%nat) by lia.
      split; [done|]. split; [intros E; rewrite E in Hlt; lia|]. split; [done|].
      destruct (substring0_grow _ _ Hpre Hlt) as [c Hc]. exists c.
      pose proof (startsWith_substring0 TYPEWRITER_TEXT
                    (S (String.length (displayPlaceholder s)))) as Hs.
      rewrite Hc in Hs.
      unfold Js.length at 1. rewrite (slice_grow _ _ Hlt), Hc. split; [done|exact Hs].
    + right. left. apply Z.ltb_ge in Hl. unfold Js.length in Hl.
      split; [done|]. split; [apply Heq; lia|]. done.
  - destruct (0 <? Js.length (displayPlaceholder s)) eqn:Hl;
      intros [= <- <-]; (split; [done|]); (split; [done|]).
    + right. right. left. apply Z.ltb_lt in Hl.
      assert (Hne : displayPlaceholder s <> "").
      { intros E. rewrite E in Hl. unfold Js.length in Hl. simpl in Hl. lia. }
      split; [done|]. split; [done|]. split; [done|].
      destruct (substring0_shrink _ Hne) as [c Hc].
      exists c, (String.substring 0 (String.length (displayPlaceholder s) - 1)
                   (displayPlaceholder s)).
      rewrite slice_shrink. split; [done|]. split; [exact Hc|].
      exact (startsWith_trans _ _ _ Hpre (startsWith_substring0 _ _)).
    + right. right. right. apply Z.ltb_ge, length_zero_empty in Hl. done.
Qed.

(** A typewriter timeout that fires changes a dependency of the effect, so
    the effect runs again. *)
Lemma typewriter_fires w due a :
  typewriter_ok w -> typewriter w = Some (due, a) ->
  let w1 := applyTypewriter a (with_typewriter None w) in
  deps_eqb (typewriterDeps (st w)) (typewriterDeps (st w1)) = false
  /\ Js.startsWith TYPEWRITER_TEXT (displayPlaceholder (st w1)) = true
  /\ exists delay, typewriterEffect (st w) = Some (delay, a).
Proof.
  intros [Hpre (t0 & _ & Ht)] Hw. cbv zeta. rewrite Hw in Ht.
  destruct (typewriterEffect (st w)) as [[delay a']|] eqn:He; [|done].
  injection Ht as -> ->.
  split; [|split; [|eauto]].
  - apply not_true_is_false. rewrite deps_eqb_eq.
    destruct (typewriterEffect_cases _ _ _ Hpre He) as (_ & _ & Hc).
    unfold typewriterDeps.
    destruct Hc as [(_ & _ & _ & c & -> & _)
                   |[(Ht & _ & _ & ->)
                    |[(_ & _ & _ & c & p & -> & Hp & _)|(Ht & _ & _ & ->)]]];
      simpl; intros H;
      pose proof (f_equal (fun x => fst (fst (fst x))) H) as H1;
      pose proof (f_equal (fun x => snd (fst (fst x))) H) as H2;
      simpl in H1, H2; try congruence.
    + symmetry in H1. by apply append_char_neq in H1.
    + rewrite Hp in H1. by apply append_char_neq in H1.
  - destruct (typewriterEffect_cases _ _ _ Hpre He) as (_ & _ & Hc).
    destruct Hc as [(_ & _ & _ & c & -> & Hc)
                   |[(Ht & _ & _ & ->)
                    |[(_ & _ & _ & c & p & -> & _ & Hp)|(Ht & _ & _ & ->)]]];
      simpl; done.
Qed.

Lemma rerender_typewriter_ok w w1 :
  typewriter_ok w ->
  displayPlaceholder (st w1) = displayPlaceholder (st w) ->
  typewriter w1 = typewriter w ->
  now w <= now w1 ->
  typewriter_ok (rerender (st w) w1).
Proof.
  intros [Hpre (t0 & Hle & Ht)] Hp Htw Hnow.
  destruct (rerender_frame (st w) w1) as (Hst & _ & _ & _ & _ & _ & Hn & _).
  split; rewrite Hst, ?Hn.
  - by rewrite Hp.
  - unfold rerender. destruct (deps_eqb _ _) eqn:Hd.
    + apply deps_eqb_eq, typewriterEffect_deps in Hd.
      exists t0. split; [lia|]. by rewrite Htw, Ht, Hd.
    + exists (now w1). split; [lia|]. done.
Qed.

Lemma handle_typewriter e w w1 cmds :
  handle onSelect e w = Some (w1, cmds) ->
  match e with
  | TypewriterFire => True
  | _ => displayPlaceholder (st w1) = displayPlaceholder (st w)
         /\ typewriter w1 = typewriter w /\ now w <= now w1
  end.
Proof.
  destruct e; simpl; intros H; try done.
  - injection H as <- _. pose proof (handleInputChange_frame value w) as F.
    destruct F as (_ & _ & _ & -> & -> & -> & _). repeat split. lia.
  - apply handleKeyDown_frame in H as (_ & _ & _ & _ & _ & -> & -> & -> & _).
    repeat split. lia.
  - injection H as <- _. unfold handleFocus. destruct (_ && _); repeat split; simpl; lia.
  - injection H as <- _. repeat split. simpl; lia.
  - destruct (isOpen (st w)); [|done].
    destruct (suggestions (st w) !! index); simpl in H; [|done].
    apply selectSuggestion_frame in H as (_ & _ & _ & _ & _ & -> & -> & -> & _).
    repeat split. lia.
  - destruct (_ && _); [|done]. injection H as <- _. repeat split. simpl; lia.
  - injection H as <- _. repeat split. simpl; lia.
  - destruct (List.find _ _) as [t|]; simpl in H; [|done].
    destruct (timer_due t <=? now w); [|done]. injection H as <- _.
    set (w0 := with_timers _ _ _ w).
    destruct (fetchBooks_timers (timer_value t) w0) as (_ & _ & Hn & Ht & Hd & _).
    apply (f_equal (fun x => fst (fst (fst x)))) in Hd.
    change (displayPlaceholder (st (fetchBooks (timer_value t) w0))
            = displayPlaceholder (st w)) in Hd.
    split; [exact Hd|]. split; [exact Ht|]. rewrite Hn. simpl. lia.
  - destruct (requests w !! id) as [r|]; simpl in H; [|done].
    destruct (req_status r); try done. injection H as <- _.
    set (w0 := with_requests _ _ w).
    destruct (resume_timers r o w0) as (_ & _ & Hn & Ht & Hd & _).
    apply (f_equal (fun x => fst (fst (fst x)))) in Hd.
    change (displayPlaceholder (st (fetchBooks_resume r o w0))
            = displayPlaceholder (st w)) in Hd.
    split; [exact Hd|]. split; [exact Ht|]. rewrite Hn. simpl. lia.
  - destruct (requests w !! id) as [r|]; simpl in H; [|done].
    destruct (req_status r); try done. injection H as <- _. repeat split. simpl; lia.
  - destruct (0 <=? dt) eqn:Hdt; [|done]. injection H as <- _. repeat split. simpl; lia.
Qed.

Lemma step_typewriter_ok e w w' cmds :
  typewriter_ok w -> step onSelect e w = Some (w', cmds) -> typewriter_ok w'.
Proof.
  intros Hok. unfold step.
  destruct (handle onSelect e w) as [[w1 c1]|] eqn:H; simpl; [|done].
  intros [= <- _]. pose proof (handle_typewriter e w w1 c1 H) as F.
  destruct e; try (apply rerender_typewriter_ok; tauto). clear F.
  simpl in H. destruct (typewriter w) as [[due a]|] eqn:Ht; simpl in H; [|done].
  destruct (due <=? now w); [|done]. injection H as <- _.
  destruct (typewriter_fires w due a Hok Ht) as (Hd & Hp & _).
  set (w1 := applyTypewriter a _) in *.
  destruct (rerender_frame (st w) w1) as (Hst & _ & _ & _ & _ & _ & Hn & _).
  split; rewrite Hst; [done|].
  unfold rerender. rewrite Hd. exists (now w1). split; [|done].
  unfold w1. destruct a; simpl; lia.
Qed.

(** *** All of it, along a run *)

Lemma step_invariant e w w' cmds :
  invariant w -> step onSelect e w = Some (w', cmds) -> invariant w'.
Proof.
  intros (Hr & Ht & Hw) Hstep.
  split; [|split]; [| |by apply (step_typewriter_ok e w w' cmds)];
    unfold step in Hstep;
    destruct (handle onSelect e w) as [[w1 c1]|] eqn:H; simpl in Hstep; try done;
    injection Hstep as <- _;
    destruct (rerender_frame (st w) w1) as (_ & F1 & F2 & F3 & F4 & F5 & _ & F6).
  - apply (requests_ok_ext w1); try done. by apply (handle_requests_ok e w w1 c1).
  - apply (timers_ok_ext w1); try done. by apply (handle_timers_ok e w w1 c1).
Qed.

Lemma mount_invariant cache t0 : invariant (mount cache t0).
Proof.
  split; [|split]; split; simpl; try done; try lia.
  - intros t H. by apply elem_of_nil in H.
  - intros t H. by apply elem_of_nil in H.
  - intros t H. by apply elem_of_nil in H.
  - exists t0. split; [lia|done].
Qed.

Lemma run_invariant es : forall w w' cmds,
  invariant w -> run onSelect es w = Some (w', cmds) -> invariant w'.
Proof.
  induction es as [|e es IH]; intros w w' cmds Hinv; simpl.
  - by intros [= <- _].
  - destruct (step onSelect e w) as [[w1 c1]|] eqn:Hs; simpl; [|done].
    destruct (run onSelect es w1) as [[w2 c2]|] eqn:Hr; simpl; [|done].
    intros [= <- _]. eapply IH; [|exact Hr]. by apply (step_invariant e w w1 c1).
Qed.

Lemma step_cache_kept e w w' cmds k v :
  invariant w -> step onSelect e w = Some (w', cmds) ->
  searchCache w !! k = Some v -> searchCache w' !! k = Some v.
Proof.
  intros (Hr & _) Hstep Hk. unfold step in Hstep.
  destruct (handle onSelect e w) as [[w1 c1]|] eqn:H; simpl in Hstep; [|done].
  injection Hstep as <- _.
  destruct (rerender_frame (st w) w1) as (_ & _ & _ & -> & _).
  by apply (handle_cache_kept e w w1 c1).
Qed.

Lemma run_cache_kept es : forall w w' cmds k v,
  invariant w -> run onSelect es w = Some (w', cmds) ->
  searchCache w !! k = Some v -> searchCache w' !! k = Some v.
Proof.
  induction es as [|e es IH]; intros w w' cmds k v Hinv; simpl.
  - by intros [= <- _].
  - destruct (step onSelect e w) as [[w1 c1]|] eqn:Hs; simpl; [|done].
    destruct (run onSelect es w1) as [[w2 c2]|] eqn:Hr; simpl; [|done].
    intros [= <- _] Hk. eapply IH; [|exact Hr|].
    + by apply (step_invariant e w w1 c1).
    + by apply (step_cache_kept e w w1 c1).
Qed.

(** At most one element of a list has a property that only one position
    can have. *)
Lemma filter_at_most_one {A} (f : A -> bool) (l : list A) :
  (forall i j x y, l !! i = Some x -> l !! j = Some y ->
                   f x = true -> f y = true -> i = j) ->
  (List.length (List.filter f l) <= 1)%nat.
Proof.
  induction l as [|a l IH]; intros Huniq; simpl; [lia|].
  assert (Hl : forall i j x y, l !! i = Some x -> l !! j = Some y ->
                               f x = true -> f y = true -> i = j).
  { intros i j x y Hi Hj Hx Hy.
    specialize (Huniq (S i) (S j) x y Hi Hj Hx Hy). lia. }
  destruct (f a) eqn:Ha; [|by apply IH].
  assert (Hnone : List.filter f l = []).
  { clear IH Hl. destruct (List.filter f l) as [|y k] eqn:E; [done|].
    assert (In y (List.filter f l)) as [Hy Hfy]%filter_In by (rewrite E; by left).
    apply list_elem_of_In, list_elem_of_lookup in Hy as [j Hj].
    specialize (Huniq 0%nat (S j) a y eq_refl Hj Ha Hfy). lia. }
  rewrite Hnone. simpl. lia.
Qed.

(** C5. At any time of a run at most one request is in flight. When
    [fetchBooks] goes past the cache it aborts the request that was in
    flight, if any, before it starts the new one: afterwards no earlier
    request is in flight, the new request is the last of the list and the
    only one in flight, and its controller is the one in the ref. *)
Theorem single_flight cache t0 es w cmds :
  run onSelect es (mount cache t0) = Some (w, cmds) ->
  (List.length (List.filter inFlight (requests w)) <= 1)%nat
  /\ forall searchQuery,
       searchCache w !! Js.toLowerCase (Js.trim searchQuery) = None ->
       let w' := fetchBooks searchQuery w in
       let new := {| req_query := Js.trim searchQuery;
                     req_key := Js.toLowerCase (Js.trim searchQuery);
                     req_status := InFlight |} in
       (forall id r, requests w !! id = Some r -> req_status r = InFlight ->
                     exists r', requests w' !! id = Some r'
                                /\ req_status r' = Aborted)
       /\ (forall id r, (id < List.length (requests w))%nat ->
                        requests w' !! id = Some r -> req_status r <> InFlight)
       /\ requests w' !! List.length (requests w) = Some new
       /\ List.length (requests w') = S (List.length (requests w))
       /\ abortControllerRef w' = Some (List.length (requests w))
       /\ List.filter inFlight (requests w') = [new].
Proof.
  intros Hrun.
  destruct (run_invariant es _ w cmds (mount_invariant cache t0) Hrun) as (Hok & _).
  split.
  - apply filter_at_most_one. intros i j x y Hi Hj Hx Hy.
    unfold inFlight in Hx, Hy.
    destruct (req_status x) eqn:Ex; try done. destruct (req_status y) eqn:Ey; try done.
    pose proof (flight_ref w Hok i x Hi Ex).
    pose proof (flight_ref w Hok j y Hj Ey). congruence.
  - intros searchQuery Hmiss. cbv zeta.
    destruct (fetchBooks_miss searchQuery w Hok Hmiss)
      as (rs & Hlen & Hno & Hreq & Href & _).
    split; [|split; [|split; [|split; [|split]]]].
    + intros id r Hr Hs. pose proof (flight_ref w Hok id r Hr Hs) as Hid.
      unfold fetchBooks. rewrite Hmiss, Hid. simpl.
      assert (Hlt : (id < List.length (abort id (requests w)))%nat).
      { unfold abort. rewrite length_alter. by apply lookup_lt_Some in Hr. }
      rewrite lookup_app_l by exact Hlt.
      unfold abort. rewrite list_lookup_alter_eq, Hr. simpl. rewrite Hs.
      eexists. split; reflexivity.
    + intros id r Hlt. rewrite Hreq, lookup_app_l by lia. apply Hno.
    + rewrite Hreq, <- Hlen. by apply list_lookup_middle.
    + rewrite Hreq, length_app, Hlen. simpl. lia.
    + exact Href.
    + rewrite Hreq, List.filter_app. simpl.
      assert (Hnil : List.filter inFlight rs = []).
      { destruct (List.filter inFlight rs) as [|y k] eqn:E; [done|].
        assert (In y (List.filter inFlight rs)) as [Hy Hfy]%filter_In
          by (rewrite E; by left).
        apply list_elem_of_In, list_elem_of_lookup in Hy as [j Hj].
        unfold inFlight in Hfy. destruct (req_status y) eqn:Ey; try done.
        by destruct (Hno j y Hj). }
      by rewrite Hnil.
Qed.

(** C6. In a run at most one debounce timer is pending. [handleInputChange]
    leaves none of the timers that were pending; for a value whose trimmed
    length is below 2 it empties the suggestions, closes the list, stops the
    spinner and sets no timer; otherwise it sets exactly one, with a new
    identifier, due 200 ms later, for that value. A timer fires only when it
    is due and only for a value of trimmed length 2 or more, so every request
    made carries a query of 2 characters or more. *)
Theorem debounce cache t0 es w cmds :
  run onSelect es (mount cache t0) = Some (w, cmds) ->
  (List.length (timers w) <= 1)%nat
  /\ (forall value,
        let w' := handleInputChange value w in
        (forall t, t ∈ timers w -> t ∉ timers w')
        /\ if Js.length (Js.trim value) <? 2
           then timers w' = []
                /\ suggestions (st w') = [] /\ isOpen (st w') = false
                /\ isLoading (st w') = false
           else timers w' = [{| timer_id := nextTimerId w;
                                timer_due := now w + 200;
                                timer_value := value |}])
  /\ (forall t, t ∈ timers w -> 2 <= Js.length (Js.trim (timer_value t)))
  /\ (forall id w' c,
        step onSelect (DebounceFire id) w = Some (w', c) ->
        exists t, t ∈ timers w /\ timer_id t = id /\ timer_due t <= now w
                  /\ 2 <= Js.length (Js.trim (timer_value t))
                  /\ w' = rerender (st w)
                            (fetchBooks (timer_value t)
                               (with_timers (clearTimeout id (timers w))
                                  (debounceTimerRef w) (nextTimerId w) w)))
  /\ (forall id r, requests w !! id = Some r -> 2 <= Js.length (req_query r)).
Proof.
  intros Hrun.
  destruct (run_invariant es _ w cmds (mount_invariant cache t0) Hrun)
    as (Hreq & Htm & _).
  split; [apply (timer_one w Htm)|]. split; [|split; [|split]].
  - intros value. cbv zeta.
    pose proof (handleInputChange_timers value w Htm) as H. cbv zeta in H.
    split.
    + intros t Hin Hin'. pose proof (timer_fresh w Htm t Hin) as Hfresh.
      destruct (Js.length (Js.trim value) <? 2).
      * destruct H as (H & _). rewrite H in Hin'. by apply elem_of_nil in Hin'.
      * destruct H as (H & _). rewrite H in Hin'.
        apply list_elem_of_singleton in Hin'. subst t. simpl in Hfresh. lia.
    + destruct (Js.length (Js.trim value) <? 2); tauto.
  - apply (timer_long w Htm).
  - intros id w' c. unfold step. simpl.
    destruct (List.find _ _) as [t|] eqn:Ht; simpl; [|done].
    destruct (timer_due t <=? now w) eqn:Hdue; simpl; [|done].
    intros [= <- _]. apply find_timer in Ht as [Hin Hid].
    exists t. repeat split; try done; [lia|by apply (timer_long w Htm)].
  - intros id r Hr. by apply (request_key w Hreq id r).
Qed.

(** C9. Once the response of a request has been ranked and cached, every
    later call of [fetchBooks] for a query with the same trimmed lower-cased
    form finds the entry: it shows the same list, and it neither starts nor
    aborts a request. *)
Theorem cache_idempotent cache t0 es1 w0 c0 id r docs results w1 c1 es2 w2 c2
    searchQuery again :
  run onSelect es1 (mount cache t0) = Some (w0, c0) ->
  requests w0 !! id = Some r ->
  req_query r = Js.trim searchQuery ->
  step onSelect (Respond id (Docs docs)) w0 = Some (w1, c1) ->
  rankResults (req_query r) docs = Some results ->
  run onSelect es2 w1 = Some (w2, c2) ->
  Js.toLowerCase (Js.trim again) = Js.toLowerCase (Js.trim searchQuery) ->
  searchCache w2 !! Js.toLowerCase (Js.trim again) = Some results
  /\ fetchBooks again w2
     = setIsOpen true (setIsLoading false (setSuggestions results w2))
  /\ suggestions (st (fetchBooks again w2)) = results
  /\ requests (fetchBooks again w2) = requests w2
  /\ abortControllerRef (fetchBooks again w2) = abortControllerRef w2.
Proof.
  intros Hrun1 Hr Hq Hstep Hrank Hrun2 Hkey.
  pose proof (run_invariant es1 _ w0 c0 (mount_invariant cache t0) Hrun1) as Hinv0.
  pose proof (step_invariant _ w0 w1 c1 Hinv0 Hstep) as Hinv1.
  destruct Hinv0 as (Hreq0 & _).
  destruct (request_key w0 Hreq0 id r Hr) as [Hk _].
  assert (Hc1 : searchCache w1 !! req_key r = Some results).
  { unfold step in Hstep. simpl in Hstep. rewrite Hr in Hstep. simpl in Hstep.
    destruct (req_status r); try done. simpl in Hstep. injection Hstep as <- _.
    destruct (rerender_frame (st w0)
                (fetchBooks_resume r (Docs docs)
                   (with_requests (settle id (requests w0)) (abortControllerRef w0) w0)))
      as (_ & _ & _ & -> & _).
    unfold fetchBooks_resume. rewrite Hrank. simpl. apply lookup_insert_eq. }
  assert (Hc2 : searchCache w2 !! Js.toLowerCase (Js.trim again) = Some results).
  { rewrite Hkey, <- Hq, <- Hk. by apply (run_cache_kept es2 w1 w2 c2). }
  split; [exact Hc2|].
  unfold fetchBooks. rewrite Hc2. repeat split.
Qed.

Lemma nonempty_length s : s <> "" -> (0 <? Js.length s) = true.
Proof. destruct s; [done|]. intros _. apply Z.ltb_lt. unfold Js.length. simpl. lia. Qed.

(** C7. In a run the placeholder on display is always a prefix of the text.
    While the query is not empty or the input has the focus no typewriter
    timeout is pending. A timeout that fires was due and is the one the
    effect sets in the current state: when typing and incomplete, after
    [TYPING_SPEED], one more character; when typing and complete, after
    [PAUSE_AFTER_TYPE], the switch to deleting; when deleting and not empty,
    after [DELETING_SPEED], one character less; when deleting and empty,
    after [PAUSE_AFTER_DELETE], the switch back to typing. The next timeout is
    set at once, from that time on. *)
Theorem typewriter_animation cache t0 es w cmds :
  run onSelect es (mount cache t0) = Some (w, cmds) ->
  Js.startsWith TYPEWRITER_TEXT (placeholder (st w)) = true
  /\ Js.startsWith TYPEWRITER_TEXT (displayPlaceholder (st w)) = true
  /\ (query (st w) <> "" \/ isFocused (st w) = true ->
      typewriter w = None /\ step onSelect TypewriterFire w = None)
  /\ (forall w' c,
        step onSelect TypewriterFire w = Some (w', c) ->
        exists due delay a,
          typewriter w = Some (due, a) /\ due <= now w
          /\ typewriterEffect (st w) = Some (delay, a)
          /\ typewriter w' = prod_map (Z.add (now w')) id <$> typewriterEffect (st w')
          /\ ((isTyping (st w) = true /\ displayPlaceholder (st w) <> TYPEWRITER_TEXT
               /\ delay = TYPING_SPEED /\ isTyping (st w') = true
               /\ exists ch, displayPlaceholder (st w')
                             = displayPlaceholder (st w) +:+ String ch "")
              \/ (isTyping (st w) = true /\ displayPlaceholder (st w) = TYPEWRITER_TEXT
                  /\ delay = PAUSE_AFTER_TYPE /\ isTyping (st w') = false
                  /\ displayPlaceholder (st w') = TYPEWRITER_TEXT)
              \/ (isTyping (st w) = false /\ displayPlaceholder (st w) <> ""
                  /\ delay = DELETING_SPEED /\ isTyping (st w') = false
                  /\ exists ch, displayPlaceholder (st w)
                                = displayPlaceholder (st w') +:+ String ch "")
              \/ (isTyping (st w) = false /\ displayPlaceholder (st w) = ""
                  /\ delay = PAUSE_AFTER_DELETE /\ isTyping (st w') = true
                  /\ displayPlaceholder (st w') = ""))).
Proof.
  intros Hrun.
  destruct (run_invariant es _ w cmds (mount_invariant cache t0) Hrun)
    as (_ & _ & Hok).
  pose proof Hok as [Hpre (ts & Hts & Htw)].
  split; [|split; [exact Hpre|split]].
  - unfold placeholder. destruct (isFocused (st w) || _); [reflexivity|exact Hpre].
  - intros Hsusp.
    assert (He : typewriterEffect (st w) = None).
    { unfold typewriterEffect. destruct Hsusp as [Hq| ->].
      - by rewrite (nonempty_length _ Hq).
      - by rewrite orb_true_r. }
    rewrite He in Htw. simpl in Htw. split; [exact Htw|].
    unfold step. simpl. by rewrite Htw.
  - intros w' c. unfold step. simpl.
    destruct (typewriter w) as [[due a]|] eqn:Ht; simpl; [|done].
    destruct (due <=? now w) eqn:Hdue; simpl; [|done]. intros [= <- _].
    destruct (typewriter_fires w due a Hok Ht) as (Hd & _ & delay & He).
    set (w1 := applyTypewriter a (with_typewriter None w)) in *.
    destruct (rerender_frame (st w) w1) as (Hst & _ & _ & _ & _ & _ & Hn & _).
    exists due, delay, a. split; [done|]. split; [lia|]. split; [exact He|].
    rewrite Hst, Hn. split; [unfold rerender; by rewrite Hd|].
    destruct (typewriterEffect_cases _ _ _ Hpre He) as (_ & _ & Hc).
    unfold w1.
    destruct Hc as [(Hty & Hne & -> & ch & -> & _)
                   |[(Hty & Heq & -> & ->)
                    |[(Hty & Hne & -> & ch & p & -> & Hp & _)
                     |(Hty & Heq & -> & ->)]]]; simpl.
    + left. eauto 10.
    + right. left. eauto 10.
    + right. right. left. eauto 10.
    + right. right. right. eauto 10.
Qed.

End Machine.

(** ** The routes and the selection of a book *)

Section Selection.
Import Autocomplete.
Context {Cmd : Type} (f : suggestion -> list Cmd).

(** The only commands a handler of the widget issues are those of
    [onSelect], for a suggestion on display. *)
Lemma selectSuggestion_cmds book w w' cmds :
  selectSuggestion (Some f) book w = Some (w', cmds) -> cmds = f book.
Proof.
  unfold selectSuggestion. destruct (title book); simpl; [|done]. by intros [= _ <-].
Qed.

Lemma handle_cmds e w w' cmds :
  handle (Some f) e w = Some (w', cmds) ->
  cmds = [] \/ exists book, book ∈ suggestions (st w) /\ cmds = f book.
Proof.
  destruct e; simpl; intros H;
    try (destruct (List.find _ _) as [t|]; simpl in H; [|done]);
    try (destruct (requests w !! id) as [r|]; simpl in H; [|done]);
    try (destruct (typewriter w) as [[due a]|]; simpl in H; [|done]);
    repeat case_match; simplify_eq; auto.
  - unfold handleKeyDown in H. repeat case_match; simplify_eq; auto.
    destruct (suggestions (st w) !! _) as [book|] eqn:E; simpl in H; [|done].
    right. exists book. split; [by eapply list_elem_of_lookup_2|].
    by eapply selectSuggestion_cmds.
  - destruct (suggestions (st w) !! index) as [book|] eqn:E; simpl in H; [|done].
    right. exists book. split; [by eapply list_elem_of_lookup_2|].
    by eapply selectSuggestion_cmds.
Qed.

End Selection.

(** C8. The route table has exactly three routes: [/] for the home page,
    [/book] for the book details, [/player] for the player. The home page
    mounts one [BookAutocomplete], with [handleBookSelect] as its [onSelect].
    A click on a suggestion on display navigates to [/book] with that
    suggestion as the book of the navigation state, where [BookDetails] is
    rendered; and whatever happens to the widget, the location stays as it is
    or becomes [/book] with one of the suggestions on display. *)
Theorem routes_and_selection :
  map (fun r => (Router.path r, Router.element_of r)) Router.routes
  = [("/", Router.App); ("/book", Router.BookDetails); ("/player", Router.AudioPlayer)]
  /\ (forall s, Router.matchRoutes {| Router.pathname := "/"; Router.state := s |}
                = Some Router.App)
  /\ (forall s, Router.matchRoutes {| Router.pathname := "/book"; Router.state := s |}
                = Some Router.BookDetails)
  /\ (forall s, Router.matchRoutes {| Router.pathname := "/player"; Router.state := s |}
                = Some Router.AudioPlayer)
  /\ (forall showContent,
        Home.widgets (Home.App showContent) = [Some Home.handleBookSelect])
  /\ (forall a index book,
        Autocomplete.isOpen (Autocomplete.st (Home.widget a)) = true ->
        Autocomplete.suggestions (Autocomplete.st (Home.widget a)) !! index = Some book ->
        is_Some (Autocomplete.title book) ->
        exists a',
          Home.dispatch (Autocomplete.Click index) a = Some a'
          /\ Router.pathname (Home.location a') = "/book"
          /\ Home.bookOf (Home.location a') = Some book
          /\ Router.matchRoutes (Home.location a') = Some Router.BookDetails)
  /\ (forall e a a',
        Home.dispatch e a = Some a' ->
        Home.location a' = Home.location a
        \/ exists book,
             book ∈ Autocomplete.suggestions (Autocomplete.st (Home.widget a))
             /\ Router.pathname (Home.location a') = "/book"
             /\ Home.bookOf (Home.location a') = Some book).
Proof.
  split; [reflexivity|]. do 3 (split; [reflexivity|]).
  split; [by intros []|]. split.
  - intros a index book Hopen Hbook [t Ht].
    unfold Home.dispatch. simpl. unfold Autocomplete.step. simpl.
    rewrite Hopen, Hbook. simpl. unfold Autocomplete.selectSuggestion.
    rewrite Ht. simpl. eexists. split; [reflexivity|]. by simpl.
  - intros e a a'. unfold Home.dispatch. simpl. unfold Autocomplete.step.
    destruct (Autocomplete.handle _ e _) as [[w1 c1]|] eqn:H; simpl; [|done].
    intros [= <-]. simpl.
    apply handle_cmds in H as [->|(book & Hin & ->)]; [by left|].
    right. exists book. by simpl.
Qed.

(** ** parseScript *)

Section Script.
Import Player.

Lemma appendToLast_named ds line : Forall named ds -> Forall named (appendToLast ds line).
Proof.
  intros H. unfold appendToLast. apply Forall_alter; [exact H|].
  intros d _ Hd. exact Hd.
Qed.

Lemma parseLine_named ds line : Forall named ds -> Forall named (parseLine ds line).
Proof.
  intros H. unfold parseLine.
  destruct (matchSpeaker "Naval" line).
  { apply Forall_app. split; [exact H|]. apply Forall_singleton. by left. }
  destruct (matchSpeaker "Chris" line).
  { apply Forall_app. split; [exact H|]. apply Forall_singleton. by right. }
  destruct (_ && _); [|exact H].
  destruct (0 <? List.length ds)%nat; [by apply appendToLast_named|exact H].
Qed.

Lemma fold_parseLine_named lines : forall ds,
  Forall named ds -> Forall named (fold_left parseLine lines ds).
Proof.
  induction lines as [|l lines IH]; intros ds H; simpl; [exact H|].
  by apply IH, parseLine_named.
Qed.

Lemma appendToLast_snoc ds d line :
  appendToLast (ds ++ [d]) line
  = ds ++ [{| speaker := speaker d; text := text d +:+ " " +:+ Js.trim line |}].
Proof.
  unfold appendToLast. rewrite length_app. simpl.
  replace (List.length ds + 1 - 1)%nat with (List.length ds + 0)%nat by lia.
  by rewrite alter_app_r.
Qed.

Lemma lineTerminator_whiteSpace c :
  Js.isLineTerminator c = true -> Js.isWhiteSpace c = true.
Proof.
  unfold Js.isLineTerminator, Js.isWhiteSpace.
  intros [H|H]%orb_true_iff; apply N.eqb_eq in H; rewrite H; reflexivity.
Qed.

(** The group after the label: the text behind the white space, up to the
    first line terminator. *)
Lemma spacesThenGroup_text rest :
  Js.trimStart rest <> "" ->
  spacesThenGroup rest = Some (dotRun (Js.trimStart rest)).
Proof.
  induction rest as [|c r IH]; simpl; [done|].
  destruct (Js.isWhiteSpace c) eqn:Hc.
  - intros H. by rewrite (IH H).
  - intros _. unfold dotPlus. simpl.
    destruct (Js.isLineTerminator c) eqn:Hl; [|done].
    apply lineTerminator_whiteSpace in Hl. congruence.
Qed.

(** C10, as the code has it. Every entry that [parseScript] returns has the
    speaker Naval or Chris; for no script and for the empty script it returns
    nothing. Each line that is not blank is handled by the first case that
    applies: if the pattern of Naval matches, a new entry of Naval with the
    captured group as text is added at the end; else if the pattern of Chris
    matches, a new entry of Chris; else, if the line does not begin with [=],
    its trimmed text is appended after a space to the text of the last entry,
    and the line is dropped when there is no entry yet; a line that begins
    with [=] changes nothing. A pattern matches a line that begins with the
    label, whatever the case of the letters, and goes on with text other than
    white space: the group is what follows the white space behind the colon,
    up to the first line terminator. It does not match the label alone. *)
Theorem parseScript_dialogues :
  (forall script d, d ∈ parseScript script -> speaker d = "Naval" \/ speaker d = "Chris")
  /\ parseScript None = []
  /\ parseScript (Some "") = []
  /\ (forall script, script <> "" ->
        parseScript (Some script) = fold_left parseLine (scriptLines script) [])
  /\ (forall ds line t,
        matchSpeaker "Naval" line = Some t ->
        parseLine ds line = ds ++ [{| speaker := "Naval"; text := t |}])
  /\ (forall ds line t,
        matchSpeaker "Naval" line = None -> matchSpeaker "Chris" line = Some t ->
        parseLine ds line = ds ++ [{| speaker := "Chris"; text := t |}])
  /\ (forall ds d line,
        matchSpeaker "Naval" line = None -> matchSpeaker "Chris" line = None ->
        Js.trim line <> "" -> Js.startsWith line "=" = false ->
        parseLine [] line = []
        /\ parseLine (ds ++ [d]) line
           = ds ++ [{| speaker := speaker d;
                       text := text d +:+ " " +:+ Js.trim line |}])
  /\ (forall ds line,
        matchSpeaker "Naval" line = None -> matchSpeaker "Chris" line = None ->
        Js.startsWith line "=" = true ->
        parseLine ds line = ds)
  /\ (forall name line rest,
        matchLiteral (name +:+ ":") line = Some rest ->
        Js.trimStart rest <> "" ->
        matchSpeaker name line = Some (dotRun (Js.trimStart rest)))
  /\ (forall name line,
        matchLiteral (name +:+ ":") line = None \/
        matchLiteral (name +:+ ":") line = Some "" ->
        matchSpeaker name line = None).
Proof.
  split; [|split; [reflexivity|split; [reflexivity|split; [|split; [|split; [|split;
    [|split; [|split]]]]]]]].
  - intros script d Hd.
    assert (H : Forall named (parseScript script)).
    { destruct script as [script|]; simpl; [|constructor].
      destruct (String.eqb script ""); [constructor|].
      apply fold_parseLine_named. constructor. }
    rewrite Forall_forall in H. by apply H.
  - intros script Hne. simpl. by destruct (String.eqb_spec script "").
  - intros ds line t H. unfold parseLine. by rewrite H.
  - intros ds line t H1 H2. unfold parseLine. by rewrite H1, H2.
  - intros ds d line H1 H2 Ht Hs. unfold parseLine. rewrite H1, H2, Hs.
    destruct (String.eqb_spec (Js.trim line) ""); [contradiction|]. simpl. split; [done|].
    rewrite length_app. simpl.
    destruct (Nat.ltb_spec 0 (List.length ds + 1)); [|lia].
    apply appendToLast_snoc.
  - intros ds line H1 H2 Hs. unfold parseLine. rewrite H1, H2, Hs.
    by rewrite andb_false_r.
  - intros name line rest Hl Hr. unfold matchSpeaker. rewrite Hl. simpl.
    by apply spacesThenGroup_text.
  - intros name line [H|H]; unfold matchSpeaker; by rewrite H.
Qed.

(** C10, the input on which the sentence of the specification fails: the
    line [Naval:] matches the label, and the code starts no entry for it; as
    the second line of a script it is appended to the words of Chris. *)
Lemma parseScript_bare_label :
  spec_speakerLine "Naval" "Naval:" = Some ""
  /\ spec_parseLine [] "Naval:" = [{| speaker := "Naval"; text := "" |}]
  /\ parseScript (Some "Naval:") = []
  /\ parseScript (Some (String.append "Chris: hi" (String "010" "Naval:")))
     = [{| speaker := "Chris"; text := "hi Naval:" |}].
Proof. repeat split. Qed.

(** C10 at a script of three lines. *)
Lemma parseScript_dialogues_witness :
  parseLine [] "NAVAL:  Read it." = [{| speaker := "Naval"; text := "Read it." |}]
  /\ matchSpeaker "Chris" "chris: ok" = Some "ok".
Proof.
  destruct parseScript_dialogues as (_ & _ & _ & _ & Hn & _ & _ & _ & Hm & _).
  split.
  - apply (Hn [] "NAVAL:  Read it." "Read it."). reflexivity.
  - apply (Hm "Chris" "chris: ok" " ok"); [reflexivity|discriminate].
Defined.

End Script.

(** ** The theorems at sample inputs *)



(** C4 when the service is down. *)
Lemma handleSummary_failure_witness :
  Details.downloadError (Details.ds (Details.run Samples.down Samples.dune Details.idle))
  = Some "Failed to fetch".
Proof.
  destruct (handleSummary_failure Samples.down Samples.dune Details.idle
              (Details.api Samples.dune "find-pdf") (Details.Rejects "Failed to fetch"))
    as (m & before & _ & He & _ & _ & _ & _ & Hm).
  - vm_compute. right. left. reflexivity.
  - reflexivity.
  - rewrite He. f_equal. by apply Hm.
Defined.

Section Witnesses.
Import Autocomplete.

(** C5 after the user has typed two letters and the search has started. *)
Lemma single_flight_witness :
  exists w cmds,
    run (Cmd := Router.command) None Samples.typing (mount ∅ 0) = Some (w, cmds)
    /\ (List.length (List.filter inFlight (requests w)) <= 1)%nat.
Proof.
  eexists _, _. split; [vm_compute; reflexivity|].
  apply (single_flight (Cmd := Router.command) None ∅ 0 Samples.typing _ []).
  vm_compute. reflexivity.
Defined.

(** C6 in the same state. *)
Lemma debounce_witness :
  exists w cmds,
    run (Cmd := Router.command) None Samples.typing (mount ∅ 0) = Some (w, cmds)
    /\ (List.length (timers w) <= 1)%nat.
Proof.
  eexists _, _. split; [vm_compute; reflexivity|].
  apply (debounce (Cmd := Router.command) None ∅ 0 Samples.typing _ []).
  vm_compute. reflexivity.
Defined.

(** C7 after the first character has been typed. *)
Lemma typewriter_animation_witness :
  exists w cmds,
    run (Cmd := Router.command) None Samples.idling (mount ∅ 0) = Some (w, cmds)
    /\ Js.startsWith TYPEWRITER_TEXT (placeholder (st w)) = true.
Proof.
  eexists _, _. split; [vm_compute; reflexivity|].
  apply (typewriter_animation (Cmd := Router.command) None ∅ 0 Samples.idling _ []).
  vm_compute. reflexivity.
Defined.

(** C9: the search for [du] has been answered, and the user types [ DU]. *)
Lemma cache_idempotent_witness :
  exists w0 w1 w2 results,
    run (Cmd := Router.command) None Samples.typing (mount ∅ 0) = Some (w0, [])
    /\ step (Cmd := Router.command) None (Respond 0 (Docs Samples.shelf)) w0
       = Some (w1, [])
    /\ run (Cmd := Router.command) None [Change " DU"; Elapse 200] w1 = Some (w2, [])
    /\ (searchCache w2 !! Js.toLowerCase (Js.trim " DU") = Some results
        /\ fetchBooks " DU" w2
           = setIsOpen true (setIsLoading false (setSuggestions results w2))
        /\ suggestions (st (fetchBooks " DU" w2)) = results
        /\ requests (fetchBooks " DU" w2) = requests w2
        /\ abortControllerRef (fetchBooks " DU" w2) = abortControllerRef w2).
Proof.
  eexists _, _, _, _.
  split; [vm_compute; reflexivity|].
  split; [vm_compute; reflexivity|].
  split; [vm_compute; reflexivity|].
  eapply (cache_idempotent (Cmd := Router.command) None ∅ 0 Samples.typing _ []
            0%nat _ Samples.shelf _ _ [] [Change " DU"; Elapse 200] _ [] "du" " DU").
  - vm_compute. reflexivity.
  - vm_compute. reflexivity.
  - reflexivity.
  - vm_compute. reflexivity.
  - vm_compute. reflexivity.
  - vm_compute. reflexivity.
  - reflexivity.
Defined.

End Witnesses.

(** * Further properties *)

(** ** More on calculateTitleMatch and the scores *)

Section MoreScores.
Import Autocomplete.

Lemma toLowerChar_idem c : Js.toLowerChar (Js.toLowerChar c) = Js.toLowerChar c.
Proof. destruct c as [[] [] [] [] [] [] [] []]; reflexivity. Qed.

Lemma toLowerCase_idem s : Js.toLowerCase (Js.toLowerCase s) = Js.toLowerCase s.
Proof. induction s as [|c s IH]; simpl; [done|]. by rewrite toLowerChar_idem, IH. Qed.

Lemma toLowerCase_empty s : Js.toLowerCase s = "" <-> s = "".
Proof. destruct s; simpl; split; intros H; done. Qed.

Lemma eqb_empty_lower s t :
  Js.toLowerCase s = Js.toLowerCase t -> String.eqb s "" = String.eqb t "".
Proof.
  intros H.
  destruct (String.eqb_spec s "") as [->|Hs], (String.eqb_spec t "") as [->|Ht]; try done.
  - simpl in H. symmetry in H. apply (proj1 (toLowerCase_empty t)) in H. congruence.
  - simpl in H. apply (proj1 (toLowerCase_empty s)) in H. congruence.
Qed.

(** X1. The score does not depend on the case of the letters: two titles
    that become equal in lower case, and two queries that do, score the
    same. *)
Theorem calculateTitleMatch_case_insensitive (title title' query query' : string) :
  Js.toLowerCase title = Js.toLowerCase title' ->
  Js.toLowerCase query = Js.toLowerCase query' ->
  calculateTitleMatch title query = calculateTitleMatch title' query'.
Proof.
  intros Ht Hq. unfold calculateTitleMatch, normalized.
  by rewrite (eqb_empty_lower _ _ Ht), (eqb_empty_lower _ _ Hq), Ht, Hq.
Qed.

Lemma calculateTitleMatch_case_insensitive_witness :
  calculateTitleMatch "DUNE Messiah" "dUnE" = calculateTitleMatch "dune messiah" "dune".
Proof. apply calculateTitleMatch_case_insensitive; reflexivity. Defined.

Lemma startsWith_empty_l s : s <> "" -> Js.startsWith "" s = false.
Proof. by destruct s. Qed.

Lemma startsWith_empty_r s : Js.startsWith s "" = true.
Proof. by destruct s. Qed.

(** X2. The ladder of the scores for a title and a query that are not empty
    and whose normal forms differ: 95 when the title begins with the query,
    else 90 when the query begins with the title, else 85 when the title
    contains the query, else a word score of at most 70. So a query that is
    blank scores 95 on every title that is not, and a blank title scores 90
    for every query that is not blank. *)
Theorem calculateTitleMatch_ladder (title query : string) :
  title <> "" -> query <> "" ->
  normalized title <> normalized query ->
  let r := calculateTitleMatch title query in
  let nt := normalized title in
  let nq := normalized query in
  (Js.startsWith nt nq = true -> r = 95)
  /\ (Js.startsWith nt nq = false -> Js.startsWith nq nt = true -> r = 90)
  /\ (Js.startsWith nt nq = false -> Js.startsWith nq nt = false ->
      Js.includes nt nq = true -> r = 85)
  /\ (Js.startsWith nt nq = false -> Js.startsWith nq nt = false ->
      Js.includes nt nq = false -> 0 <= r <= 70)
  /\ (nq = "" -> r = 95)
  /\ (nt = "" -> r = 90).
Proof.
  intros Ht Hq Hn. cbv zeta. unfold calculateTitleMatch.
  destruct (String.eqb_spec title ""); [done|].
  destruct (String.eqb_spec query ""); [done|]. simpl.
  destruct (String.eqb_spec (normalized title) (normalized query)); [done|].
  split; [by intros ->|]. split; [by intros -> ->|].
  split; [by intros -> -> ->|]. split; [|split].
  - intros -> -> ->.
    set (queryWords := List.filter _ _).
    destruct (Nat.eqb_spec (List.length queryWords) 0) as [Hz|Hz]; [lia|].
    destruct (countMatches queryWords _) as [m p] eqn:Hc.
    apply countMatches_le in Hc.
    apply (Math_round_words m p (List.length queryWords)); lia.
  - intros E. rewrite E in *. by rewrite startsWith_empty_r.
  - intros E. rewrite E in *.
    rewrite startsWith_empty_l by congruence. by rewrite startsWith_empty_r.
Qed.

Lemma calculateTitleMatch_ladder_witness :
  calculateTitleMatch "The Hobbit" "hobbit" = 85
  /\ calculateTitleMatch "   " "hobbit" = 90.
Proof.
  split.
  - apply (calculateTitleMatch_ladder "The Hobbit" "hobbit"); try discriminate; reflexivity.
  - apply (calculateTitleMatch_ladder "   " "hobbit"); try discriminate; reflexivity.
Defined.












(** X5. What a suggestion holds once [scoreBook] has made it of a document:
    the authors are never the empty string ("Unknown author" stands in), the
    year and the cover identifier are absent rather than 0, and the title, the
    key and the ISBNs are those of the document. So the player page has a
    cover for the suggestion exactly when the document has a cover
    identifier other than 0. *)
Theorem scoreBook_fields (cleanQuery : string) (book : doc) :
  let s := scoreBook cleanQuery book in
  authors s <> ""
  /\ year s <> Some 0 /\ cover_i s <> Some 0
  /\ title s = doc_title book /\ key s = doc_key book /\ isbn s = doc_isbn book
  /\ (is_Some (Covers.playerCoverUrl s) <-> truthyZ (doc_cover_i book) = true).
Proof.
  cbv zeta. unfold scoreBook. simpl.
  split; [|split; [|split; [|split; [|split; [|split]]]]]; try reflexivity.
  - unfold authorsOf. destruct (doc_author_name book) as [l|]; [|done].
    simpl. by destruct (String.eqb_spec (join ", " l) "").
  - unfold orNull. destruct (doc_first_publish_year book) as [y|]; simpl; [|done].
    destruct (Z.eqb_spec y 0); simpl; congruence.
  - unfold orNull. destruct (doc_cover_i book) as [y|]; simpl; [|done].
    destruct (Z.eqb_spec y 0); simpl; congruence.
  - unfold Covers.playerCoverUrl, orNull. simpl.
    destruct (doc_cover_i book) as [y|]; simpl.
    + destruct (Z.eqb_spec y 0) as [->|Hy]; simpl.
      * split; [by intros [? ?]|done].
      * destruct (Z.eqb_spec y 0); [done|]. simpl. split; [done|eauto].
    + split; [by intros [? ?]|done].
Qed.

End MoreScores.

(** ** More on the component *)

Section MoreMachine.
Import Autocomplete Lifecycle.
Context {Cmd : Type} (onSelect : option (suggestion -> list Cmd)).

(** *** What is on display *)

Lemma filterFrom_elem {A} (f : A -> Z -> option bool) l : forall i res x,
  filterFrom f i l = Some res -> x ∈ res ->
  x ∈ l /\ exists j b, f x j = Some b.
Proof.
  induction l as [|a l IH]; intros i res x; simpl.
  - intros [= <-] H. by apply elem_of_nil in H.
  - destruct (f a i) as [b|] eqn:Hf; simpl; [|done].
    destruct (filterFrom f (i + 1) l) as [r'|] eqn:Hr; simpl; [|done].
    intros [= <-] Hx.
    assert (Hcase : x = a \/ x ∈ r').
    { destruct b; [by apply elem_of_cons in Hx|by right]. }
    destruct Hcase as [->|Hx'].
    + split; [apply elem_of_cons; by left|eauto].
    + destruct (IH (i + 1) r' x Hr Hx') as [Hin Hex].
      split; [apply elem_of_cons; by right|exact Hex].
Qed.

Lemma rankResults_listed cleanQuery docs results :
  rankResults cleanQuery docs = Some results -> listed results.
Proof.
  unfold rankResults.
  destruct (removeDuplicates _) as [deduped|] eqn:Hd; simpl; [|done].
  intros [= <-]. split; [|rewrite length_take; lia].
  apply Forall_forall. intros x Hx.
  assert (Hx' : x ∈ deduped) by (revert Hx; apply sublist_subseteq, sublist_take).
  destruct (filterFrom_elem _ _ _ _ x Hd Hx') as (_ & j & b & Hf).
  unfold isFirstWithTitle, dedupeKey, titled in *.
  destruct (title x); [eauto|done].
Qed.

Lemma listed_nil : listed [].
Proof. split; [constructor|simpl; lia]. Qed.

Lemma selectSuggestion_display book w w' cmds :
  display_ok w -> selectSuggestion onSelect book w = Some (w', cmds) -> display_ok w'.
Proof.
  intros (_ & Hc & _). unfold selectSuggestion.
  destruct (title book); simpl; [|done]. intros [= <- _].
  split; [apply listed_nil|]. split; [exact Hc|simpl; lia].
Qed.

Lemma handle_display_ok e w w' cmds :
  display_ok w -> handle onSelect e w = Some (w', cmds) -> display_ok w'.
Proof.
  intros Hok H. pose proof Hok as (Hs & Hc & Ha).
  destruct e as [value|k| | |index|index| |id|id o|id| |dt]; simpl in H.
  - injection H as <- _. unfold handleInputChange.
    destruct (_ <? 2); (split; [|split]); simpl; try done; try lia.
    apply listed_nil.
  - unfold handleKeyDown in H.
    destruct (negb (isOpen (st w)) || _) eqn:E0; [by injection H as <- _|].
    apply orb_false_iff in E0 as [_ En]. apply Z.eqb_neq in En.
    destruct (String.eqb k "ArrowDown").
    { injection H as <- _. split; [|split]; simpl; try done.
      destruct (activeIndex (st w) <? _); lia. }
    destruct (String.eqb k "ArrowUp").
    { injection H as <- _. split; [|split]; simpl; try done.
      destruct (0 <? activeIndex (st w)) eqn:E1; [apply Z.ltb_lt in E1|]; lia. }
    destruct (String.eqb k "Enter" || String.eqb k "Tab").
    { destruct (_ && _); [|by injection H as <- _].
      destruct (suggestions (st w) !! _) as [book|]; simpl in H; [|done].
      by apply (selectSuggestion_display book w w' cmds). }
    destruct (String.eqb k "Escape"); injection H as <- _; [|done].
    split; [|split]; simpl; try done.
  - injection H as <- _. unfold handleFocus. by destruct (_ && _).
  - by injection H as <- _.
  - destruct (isOpen (st w)); [|done].
    destruct (suggestions (st w) !! index) as [book|]; simpl in H; [|done].
    by apply (selectSuggestion_display book w w' cmds).
  - destruct (_ && _); [|done]. injection H as <- _.
    split; [|split]; simpl; try done. lia.
  - by injection H as <- _.
  - destruct (List.find _ _) as [t|]; simpl in H; [|done].
    destruct (timer_due t <=? now w); [|done]. injection H as <- _.
    unfold fetchBooks. simpl.
    destruct (searchCache w !! Js.toLowerCase _) as [cached|] eqn:E; [|done].
    split; [|split]; simpl; try done. exact (Hc _ cached E).
  - destruct (requests w !! id) as [r|]; simpl in H; [|done].
    destruct (req_status r); try done. injection H as <- _.
    unfold fetchBooks_resume.
    assert (Hnone : display_ok
              (setIsLoading false (setSuggestions []
                 (with_requests (settle id (requests w)) (abortControllerRef w) w)))).
    { split; [apply listed_nil|]. by split. }
    destruct o; try exact Hnone.
    destruct (rankResults (req_query r) docs) as [results|] eqn:Hr; [|exact Hnone].
    apply rankResults_listed in Hr.
    split; [exact Hr|]. split; [|exact Ha]. simpl.
    intros k v Hk. apply lookup_insert_Some in Hk as [[_ <-]|[_ Hk]]; [exact Hr|].
    by apply (Hc k).
  - destruct (requests w !! id) as [r|]; simpl in H; [|done].
    destruct (req_status r); try done. by injection H as <- _.
  - destruct (typewriter w) as [[due a]|]; simpl in H; [|done].
    destruct (due <=? now w); [|done]. injection H as <- _. by destruct a.
  - destruct (0 <=? dt); [|done]. by injection H as <- _.
Qed.

Lemma step_display_ok e w w' cmds :
  display_ok w -> step onSelect e w = Some (w', cmds) -> display_ok w'.
Proof.
  intros Hok. unfold step.
  destruct (handle onSelect e w) as [[w1 c1]|] eqn:H; simpl; [|done].
  intros [= <- _]. apply (handle_display_ok e w w1 c1 Hok) in H.
  destruct (rerender_frame (st w) w1) as (Hst & _ & _ & Hca & _).
  unfold display_ok. by rewrite Hst, Hca.
Qed.

Lemma run_display_ok es : forall w w' cmds,
  display_ok w -> run onSelect es w = Some (w', cmds) -> display_ok w'.
Proof.
  induction es as [|e es IH]; intros w w' cmds Hok; simpl.
  - by intros [= <- _].
  - destruct (step onSelect e w) as [[w1 c1]|] eqn:Hs; simpl; [|done].
    destruct (run onSelect es w1) as [[w2 c2]|] eqn:Hr; simpl; [|done].
    intros [= <- _]. eapply IH; [|exact Hr]. by apply (step_display_ok e w w1 c1).
Qed.


(** *** The arrow keys *)


(** X8. A key stroke never fails. With the list closed or empty every key
    is ignored, Escape too. With the list open, Enter and Tab select the
    active entry, and do nothing when the active index is -1 or beyond the
    list; any key other than the arrows, Enter, Tab and Escape changes
    nothing. Only Enter and Tab can issue commands. *)
Theorem keys_never_fail cache t0 es w cmds (k : string) :
  (forall k v, cache !! k = Some v -> listed v) ->
  run onSelect es (mount cache t0) = Some (w, cmds) ->
  let n := Z.of_nat (List.length (suggestions (st w))) in
  exists w' c,
    step onSelect (KeyDown k) w = Some (w', c)
    /\ (isOpen (st w) = false \/ n = 0 -> w' = w /\ c = [])
    /\ (isOpen (st w) = true -> 0 < n -> k = "Enter" \/ k = "Tab" ->
        if (0 <=? activeIndex (st w)) && (activeIndex (st w) <? n)
        then exists book,
               suggestions (st w) !! Z.to_nat (activeIndex (st w)) = Some book
               /\ title book = Some (query (st w'))
               /\ suggestions (st w') = [] /\ isOpen (st w') = false
               /\ c = match onSelect with Some f => f book | None => [] end
        else w' = w /\ c = [])
    /\ (k <> "Enter" -> k <> "Tab" -> c = []).
Proof.
  intros Hcache Hrun. cbv zeta.
  assert (H0 : display_ok (mount cache t0)).
  { split; [apply listed_nil|]. split; [exact Hcache|simpl; lia]. }
  destruct (run_display_ok es _ w cmds H0 Hrun) as ((Ht & Hl) & _ & Ha).
  rewrite Forall_forall in Ht.
  assert (Hsame : rerender (st w) w = w).
  { unfold rerender. by rewrite (proj2 (deps_eqb_eq _ _) eq_refl). }
  unfold step, handle, handleKeyDown.
  destruct (isOpen (st w)) eqn:Hopen; simpl.
  2:{ eexists _, _. split; [reflexivity|]. rewrite Hsame. by repeat split. }
  destruct (Z.eqb_spec (Z.of_nat (List.length (suggestions (st w)))) 0) as [E|E].
  { eexists _, _. split; [reflexivity|]. rewrite Hsame.
    split; [done|]. split; [lia|done]. }
  destruct (String.eqb_spec k "ArrowDown") as [->|_].
  { eexists _, _. split; [reflexivity|]. split; [intros [|]; [done|lia]|].
    split; [by intros _ _ [|]|done]. }
  destruct (String.eqb_spec k "ArrowUp") as [->|_].
  { eexists _, _. split; [reflexivity|]. split; [intros [|]; [done|lia]|].
    split; [by intros _ _ [|]|done]. }
  destruct (String.eqb_spec k "Enter") as [->|HnE];
    [|destruct (String.eqb_spec k "Tab") as [->|HnT]]; simpl.
  3:{ destruct (String.eqb_spec k "Escape") as [->|_];
        (eexists _, _; split; [reflexivity|]; split; [intros [|]; [done|lia]|];
         split; [by intros _ _ [|]|done]). }
  all: destruct ((0 <=? activeIndex (st w))
                 && (activeIndex (st w) <? Z.of_nat (List.length (suggestions (st w)))))
         eqn:Hrange.
  all: try (eexists _, _; (split; [reflexivity|]); rewrite ?Hsame;
            (split; [intros [|]; [done|lia]|]); by split).
  all: apply andb_true_iff in Hrange as [Hge%Z.leb_le Hin%Z.ltb_lt].
  all: destruct (suggestions (st w) !! Z.to_nat (activeIndex (st w)))
         as [book|] eqn:Hb; [|apply lookup_ge_None in Hb; lia].
  all: destruct (Ht book) as [t Htitle]; [by eapply list_elem_of_lookup_2|].
  all: simpl; unfold selectSuggestion; rewrite Htitle; simpl.
  all: eexists _, _; (split; [reflexivity|]);
    (split; [intros [|]; [done|lia]|]); (split; [|done]); intros _ _ _.
  all: exists book; (split; [done|]).
  all: set (w1 := setActiveIndex _ _);
    destruct (rerender_frame (st w) w1) as (-> & _); by simpl.
Qed.

(** *** The cleanup on unmount *)

(** X9. When the component unmounts, in whatever state a run has left it, no
    debounce timer and no typewriter timeout is pending any more and no
    request is in flight: no timer can fire and no response can be handled;
    the state cells and the cache are as they were. *)
Theorem unmount_quiet cache t0 es w cmds :
  run onSelect es (mount cache t0) = Some (w, cmds) ->
  let u := unmount w in
  timers u = []
  /\ (forall id r, requests u !! id = Some r -> req_status r <> InFlight)
  /\ typewriter u = None
  /\ (forall id, handle onSelect (DebounceFire id) u = None)
  /\ (forall id o, handle onSelect (Respond id o) u = None)
  /\ handle onSelect TypewriterFire u = None
  /\ st u = st w
  /\ searchCache u = searchCache w.
Proof.
  intros Hrun.
  assert (Hinv : invariant w).
  { eapply run_invariant; [apply mount_invariant|exact Hrun]. }
  destruct Hinv as (Hr & Ht & _). cbv zeta.
  assert (Htimers : timers (unmount w) = []) by exact (cleared w Ht).
  assert (Hreq : forall id r, requests (unmount w) !! id = Some r ->
                              req_status r <> InFlight).
  { intros id r Hl Hs. simpl in Hl.
    destruct (abortControllerRef w) as [rid|] eqn:E.
    - apply abort_lookup in Hl as (r0 & Hl0 & _ & _ & Hfl).
      destruct (Hfl Hs) as [Hs0 Hne].
      pose proof (flight_ref w Hr id r0 Hl0 Hs0). congruence.
    - pose proof (flight_ref w Hr id r Hl Hs). congruence. }
  split; [exact Htimers|]. split; [exact Hreq|]. split; [reflexivity|].
  split; [|split; [|split; [reflexivity|split; reflexivity]]].
  - intros id. unfold handle. by rewrite Htimers.
  - intros id o. unfold handle.
    destruct (requests (unmount w) !! id) as [r|] eqn:E; simpl; [|done].
    destruct (req_status r) eqn:Es; try done.
    by destruct (Hreq id r E).
Qed.

(** *** The spinner *)

Lemma busy_ext w w' :
  isLoading (st w') = isLoading (st w) -> timers w' = timers w ->
  requests w' = requests w ->
  (isLoading (st w) = true -> busy w) -> isLoading (st w') = true -> busy w'.
Proof. unfold busy. intros -> -> ->. auto. Qed.

Lemma selectSuggestion_work book w w' cmds :
  selectSuggestion onSelect book w = Some (w', cmds) ->
  isLoading (st w') = isLoading (st w) /\ timers w' = timers w
  /\ requests w' = requests w.
Proof.
  unfold selectSuggestion. destruct (title book); simpl; [|done].
  by intros [= <- _].
Qed.

Lemma handle_spinner e w w' cmds :
  (isLoading (st w) = true -> busy w) ->
  handle onSelect e w = Some (w', cmds) ->
  isLoading (st w') = true -> busy w'.
Proof.
  intros Hb H.
  destruct e as [value|k| | |index|index| |id|id o|id| |dt]; simpl in H.
  - injection H as <- _. unfold handleInputChange.
    destruct (_ <? 2); simpl; [done|].
    intros _. left. intros Hnil. by apply app_eq_nil in Hnil as [_ ?].
  - unfold handleKeyDown in H.
    destruct (negb (isOpen (st w)) || _); [by injection H as <- _|].
    destruct (String.eqb k "ArrowDown"); [by injection H as <- _|].
    destruct (String.eqb k "ArrowUp"); [by injection H as <- _|].
    destruct (String.eqb k "Enter" || String.eqb k "Tab").
    { destruct (_ && _); [|by injection H as <- _].
      destruct (suggestions (st w) !! _) as [book|]; simpl in H; [|done].
      apply selectSuggestion_work in H as (? & ? & ?). by apply (busy_ext w). }
    destruct (String.eqb k "Escape"); by injection H as <- _.
  - injection H as <- _. unfold handleFocus. by destruct (_ && _).
  - by injection H as <- _.
  - destruct (isOpen (st w)); [|done].
    destruct (suggestions (st w) !! index) as [book|]; simpl in H; [|done].
    apply selectSuggestion_work in H as (? & ? & ?). by apply (busy_ext w).
  - destruct (_ && _); [|done]. by injection H as <- _.
  - by injection H as <- _.
  - destruct (List.find _ _) as [t|]; simpl in H; [|done].
    destruct (timer_due t <=? now w); [|done]. injection H as <- _.
    unfold fetchBooks. simpl.
    destruct (searchCache w !! Js.toLowerCase _) as [cached|]; simpl; [done|].
    intros _. right.
    set (rs := match abortControllerRef w with Some _ => _ | None => _ end).
    eexists (List.length rs), _. split; [apply list_lookup_middle; reflexivity|done].
  - destruct (requests w !! id) as [r|]; simpl in H; [|done].
    destruct (req_status r); try done. injection H as <- _.
    unfold fetchBooks_resume. by destruct o.
  - destruct (requests w !! id) as [r|]; simpl in H; [|done].
    destruct (req_status r); try done. by injection H as <- _.
  - destruct (typewriter w) as [[due a]|]; simpl in H; [|done].
    destruct (due <=? now w); [|done]. injection H as <- _. by destruct a.
  - destruct (0 <=? dt); [|done]. by injection H as <- _.
Qed.

Lemma step_spinner e w w' cmds :
  (isLoading (st w) = true -> busy w) ->
  step onSelect e w = Some (w', cmds) ->
  isLoading (st w') = true -> busy w'.
Proof.
  intros Hb. unfold step.
  destruct (handle onSelect e w) as [[w1 c1]|] eqn:H; simpl; [|done].
  intros [= <- _].
  destruct (rerender_frame (st w) w1) as (Hst & _ & _ & _ & Hrq & Htm & _).
  apply (busy_ext w1); [by rewrite Hst|done|done|].
  by apply (handle_spinner e w w1 c1).
Qed.

Lemma run_spinner es : forall w w' cmds,
  (isLoading (st w) = true -> busy w) ->
  run onSelect es w = Some (w', cmds) ->
  isLoading (st w') = true -> busy w'.
Proof.
  induction es as [|e es IH]; intros w w' cmds Hb; simpl.
  - by intros [= <- _].
  - destruct (step onSelect e w) as [[w1 c1]|] eqn:Hs; simpl; [|done].
    destruct (run onSelect es w1) as [[w2 c2]|] eqn:Hr; simpl; [|done].
    intros [= <- _]. eapply IH; [|exact Hr]. by apply (step_spinner e w w1 c1).
Qed.

Lemma settle_filter id : forall rs r,
  rs !! id = Some r -> req_status r <> InFlight ->
  List.filter inFlight (settle id rs) = List.filter inFlight rs.
Proof.
  unfold settle.
  induction id as [|id IH]; intros [|a rs] r; simpl; try done.
  - intros [= ->] Hs. unfold inFlight. simpl. by destruct (req_status r).
  - intros Hl Hs. f_equal. destruct (inFlight a); [f_equal|]; by apply (IH rs r).
Qed.

(** X10. The spinner shows only while something is under way: whenever
    [isLoading] is true a debounce timer is pending or a request has been
    started whose continuation has not run. It may be hidden too early: when
    the rejection of an aborted request is handled, its [finally] block turns
    the spinner off, and the requests in flight are the same as before. *)
Theorem spinner_busy cache t0 es w cmds :
  run onSelect es (mount cache t0) = Some (w, cmds) ->
  (isLoading (st w) = true -> busy w)
  /\ (forall id r,
        requests w !! id = Some r -> req_status r = Aborted ->
        exists w',
          step onSelect (AbortHandled id) w = Some (w', [])
          /\ isLoading (st w') = false
          /\ List.filter inFlight (requests w') = List.filter inFlight (requests w)).
Proof.
  intros Hrun. split.
  - eapply run_spinner; [|exact Hrun]. discriminate.
  - intros id r Hl Hs. unfold step. simpl. rewrite Hl. simpl. rewrite Hs. simpl.
    eexists. split; [reflexivity|].
    set (w1 := fetchBooks_aborted _).
    destruct (rerender_frame (st w) w1) as (-> & _ & _ & _ & -> & _).
    split; [reflexivity|]. simpl.
    apply (settle_filter id _ r Hl). by rewrite Hs.
Qed.

(** *** Where the entries of the cache come from *)

Lemma handle_cache_new e w w' cmds k v :
  requests_ok w ->
  handle onSelect e w = Some (w', cmds) ->
  searchCache w' !! k = Some v ->
  searchCache w !! k = Some v \/ ranked k v.
Proof.
  intros Hok H. pose proof (handle_quiet onSelect e w w' cmds H) as Hq.
  destruct e; try (destruct Hq as (_ & -> & _); by left); simpl in H.
  - destruct (List.find _ _) as [t|]; simpl in H; [|done].
    destruct (timer_due t <=? now w); [|done]. injection H as <- _.
    unfold fetchBooks. simpl.
    destruct (searchCache w !! Js.toLowerCase _); by left.
  - destruct (requests w !! id) as [r|] eqn:Hr; simpl in H; [|done].
    destruct (req_status r) eqn:Hs; try done. injection H as <- _.
    unfold fetchBooks_resume. destruct o; try by left.
    destruct (rankResults _ _) as [results|] eqn:Hrank; [|by left]. simpl.
    intros [[<- <-]|[_ Hk]]%lookup_insert_Some; [right|by left].
    destruct (request_key w Hok id r Hr) as [Hkey Hlen].
    by exists (req_query r), docs.
  - destruct (requests w !! id) as [r|]; simpl in H; [|done].
    destruct (req_status r); try done. injection H as <- _. by left.
Qed.

Lemma run_cache_new es : forall w w' cmds k v,
  invariant w ->
  run onSelect es w = Some (w', cmds) ->
  searchCache w' !! k = Some v ->
  searchCache w !! k = Some v \/ ranked k v.
Proof.
  induction es as [|e es IH]; intros w w' cmds k v Hinv; simpl.
  - intros [= <- _]. by left.
  - destruct (step onSelect e w) as [[w1 c1]|] eqn:Hs; simpl; [|done].
    destruct (run onSelect es w1) as [[w2 c2]|] eqn:Hr; simpl; [|done].
    intros [= <- _] Hk.
    destruct (IH w1 w2 c2 k v (step_invariant onSelect e w w1 c1 Hinv Hs) Hr Hk)
      as [Hk1|Hnew]; [|by right].
    revert Hs. unfold step.
    destruct (handle onSelect e w) as [[w0 c0]|] eqn:H; simpl; [|done].
    intros [= <- _].
    destruct (rerender_frame (st w) w0) as (_ & _ & _ & Hca & _).
    rewrite Hca in Hk1. destruct Hinv as (Hok & _).
    exact (handle_cache_new e w w0 c0 k v Hok H Hk1).
Qed.

(** X11. The cache only grows: along a run no entry is removed or replaced.
    And an entry that was not there when the component mounted is the
    ranking of the documents of some response, stored under the lower-cased
    query of the request, a query of two characters or more. *)
Theorem cache_entries cache t0 es w cmds :
  run onSelect es (mount cache t0) = Some (w, cmds) ->
  cache ⊆ searchCache w
  /\ (forall es' w' cmds',
        run onSelect es' w = Some (w', cmds') -> searchCache w ⊆ searchCache w')
  /\ (forall k v,
        searchCache w !! k = Some v ->
        cache !! k = Some v
        \/ exists q docs,
             k = Js.toLowerCase q /\ 2 <= Js.length q
             /\ rankResults q docs = Some v).
Proof.
  intros Hrun.
  assert (Hinv : invariant w).
  { eapply run_invariant; [apply mount_invariant|exact Hrun]. }
  split; [|split].
  - apply map_subseteq_spec. intros k v Hk.
    eapply run_cache_kept; [apply mount_invariant|exact Hrun|exact Hk].
  - intros es' w' cmds' Hrun'. apply map_subseteq_spec. intros k v Hk.
    eapply run_cache_kept; [exact Hinv|exact Hrun'|exact Hk].
  - intros k v Hk.
    exact (run_cache_new es _ w cmds k v (mount_invariant cache t0) Hrun Hk).
Qed.

(** *** From the key stroke to the request *)

Lemma run_cons_Some e es w w1 c1 w2 c2 :
  step onSelect e w = Some (w1, c1) -> run onSelect es w1 = Some (w2, c2) ->
  run onSelect (e :: es) w = Some (w2, c1 ++ c2).
Proof. intros H1 H2. simpl. rewrite H1. simpl. by rewrite H2. Qed.



Lemma run_app_Some es1 : forall es2 w w1 c1 w2 c2,
  run onSelect es1 w = Some (w1, c1) -> run onSelect es2 w1 = Some (w2, c2) ->
  run onSelect (es1 ++ es2) w = Some (w2, c1 ++ c2).
Proof.
  induction es1 as [|e es1 IH]; intros es2 w w1 c1 w2 c2; simpl.
  - by intros [= <- <-].
  - destruct (step onSelect e w) as [[wa ca]|]; simpl; [|done].
    destruct (run onSelect es1 wa) as [[wb cb]|] eqn:Hr; simpl; [|done].
    intros [= <- <-] H2. rewrite (IH es2 wa wb cb w2 c2 Hr H2). simpl.
    by rewrite app_assoc.
Qed.

(** *** The animation goes on *)

Lemma step_Elapse dt w :
  0 <= dt -> step onSelect (Elapse dt) w = Some (with_now (now w + dt) w, []).
Proof.
  intros Hdt. unfold step. simpl.
  destruct (Z.leb_spec 0 dt) as [_|]; [|lia]. simpl.
  unfold rerender. change (st (with_now (now w + dt) w)) with (st w).
  by rewrite (proj2 (deps_eqb_eq _ _) eq_refl).
Qed.

(** X13. While nothing is typed and the input has no focus the animation
    does not stop: a typewriter timeout is pending, it is due 2000 ms from
    now at the latest, and once it is due it fires; that changes the
    placeholder or the phase, and the effect sets the next timeout. *)
Theorem typewriter_progress cache t0 es w cmds :
  run onSelect es (mount cache t0) = Some (w, cmds) ->
  query (st w) = "" -> isFocused (st w) = false ->
  exists due a w',
    typewriter w = Some (due, a)
    /\ due <= now w + PAUSE_AFTER_TYPE
    /\ run onSelect [Elapse (Z.max 0 (due - now w)); TypewriterFire] w = Some (w', [])
    /\ typewriterDeps (st w') <> typewriterDeps (st w)
    /\ typewriter w' = prod_map (Z.add (now w')) id <$> typewriterEffect (st w').
Proof.
  intros Hrun Hq Hf.
  assert (Hinv : invariant w).
  { eapply run_invariant; [apply mount_invariant|exact Hrun]. }
  destruct Hinv as (_ & _ & Htw). pose proof Htw as [Hpre (t1 & Hle & Ht)].
  assert (He : exists delay a,
             typewriterEffect (st w) = Some (delay, a) /\ 0 <= delay <= PAUSE_AFTER_TYPE).
  { unfold typewriterEffect. rewrite Hq, Hf.
    change (0 <? Js.length "") with false. cbn [orb].
    unfold TYPING_SPEED, PAUSE_AFTER_TYPE, DELETING_SPEED, PAUSE_AFTER_DELETE.
    destruct (isTyping (st w)).
    - destruct (Js.length (displayPlaceholder (st w)) <? Js.length TYPEWRITER_TEXT);
        eexists _, _; (split; [reflexivity|lia]).
    - destruct (0 <? Js.length (displayPlaceholder (st w)));
        eexists _, _; (split; [reflexivity|lia]). }
  destruct He as (delay & a & He & Hd). rewrite He in Ht. simpl in Ht.
  set (dt := Z.max 0 (t1 + delay - now w)).
  set (w1 := with_now (now w + dt) w).
  assert (H1 : step onSelect (Elapse dt) w = Some (w1, [])) by (apply step_Elapse; lia).
  assert (Htw1 : typewriter_ok w1) by exact (step_typewriter_ok onSelect _ _ _ _ Htw H1).
  destruct (typewriter_fires w1 (t1 + delay) a Htw1 Ht) as (Hdeps & _ & _).
  set (w2 := applyTypewriter a (with_typewriter None w1)) in *.
  assert (H2 : step onSelect TypewriterFire w1 = Some (rerender (st w1) w2, [])).
  { unfold step. simpl. rewrite Ht. simpl.
    destruct (Z.leb_spec (t1 + delay) (now w + dt)) as [_|]; [done|lia]. }
  exists (t1 + delay), a, (rerender (st w1) w2).
  split; [exact Ht|]. split; [lia|].
  split.
  { apply (run_cons_Some _ _ _ w1 [] _ []); [exact H1|].
    apply (run_cons_Some _ _ _ (rerender (st w1) w2) [] _ []); [exact H2|reflexivity]. }
  unfold rerender. rewrite Hdeps. simpl. split; [|reflexivity].
  intros E. change (st w1) with (st w) in Hdeps. rewrite E in Hdeps.
  by rewrite (proj2 (deps_eqb_eq _ _) eq_refl) in Hdeps.
Qed.

(** *** One round of the animation *)

(** A timeout of a component left alone, from the time it is set to the
    render after it has fired. *)
Lemma tick cache p typing t delay a :
  typewriterEffect (resting p typing) = Some (delay, a) ->
  0 <= delay ->
  deps_eqb (typewriterDeps (resting p typing))
    (typewriterDeps
       (resting (match a with TwSetDisplayPlaceholder s => s | _ => p end)
                (match a with TwSetIsTyping b => b | _ => typing end))) = false ->
  run onSelect [Elapse delay; TypewriterFire] (leftAlone cache p typing t)
  = Some (leftAlone cache (match a with TwSetDisplayPlaceholder s => s | _ => p end)
                     (match a with TwSetIsTyping b => b | _ => typing end)
                     (t + delay), []).
Proof.
  intros He Hd Hdeps.
  apply (run_cons_Some _ _ _ (with_now (t + delay) (leftAlone cache p typing t)) [] _ []).
  { by apply (step_Elapse delay (leftAlone cache p typing t)). }
  apply (run_cons_Some _ _ _
           (leftAlone cache (match a with TwSetDisplayPlaceholder s => s | _ => p end)
                       (match a with TwSetIsTyping b => b | _ => typing end)
                       (t + delay)) [] _ []); [|reflexivity].
  unfold step, handle, leftAlone. cbn [typewriter with_now now st].
  rewrite He. cbn [fmap option_fmap option_map prod_map fst snd id mbind option_bind].
  rewrite Z.leb_refl. cbn [mbind option_bind].
  unfold rerender. destruct a; cbn in Hdeps |- *; rewrite Hdeps; reflexivity.
Qed.

Lemma typing_effect k :
  (k < 22)%nat ->
  typewriterEffect (resting (String.substring 0 k TYPEWRITER_TEXT) true)
  = Some (TYPING_SPEED,
          TwSetDisplayPlaceholder (String.substring 0 (S k) TYPEWRITER_TEXT))
  /\ deps_eqb
       (typewriterDeps (resting (String.substring 0 k TYPEWRITER_TEXT) true))
       (typewriterDeps (resting (String.substring 0 (S k) TYPEWRITER_TEXT) true))
     = false.
Proof.
  intros Hk. do 22 (destruct k as [|k]; [split; vm_compute; reflexivity|]). lia.
Qed.

Lemma deleting_effect k :
  (k < 22)%nat ->
  typewriterEffect (resting (String.substring 0 (S k) TYPEWRITER_TEXT) false)
  = Some (DELETING_SPEED,
          TwSetDisplayPlaceholder (String.substring 0 k TYPEWRITER_TEXT))
  /\ deps_eqb
       (typewriterDeps (resting (String.substring 0 (S k) TYPEWRITER_TEXT) false))
       (typewriterDeps (resting (String.substring 0 k TYPEWRITER_TEXT) false))
     = false.
Proof.
  intros Hk. do 22 (destruct k as [|k]; [split; vm_compute; reflexivity|]). lia.
Qed.

Lemma typing_run cache k : forall j t,
  (j + k <= 22)%nat ->
  run onSelect (ticks TYPING_SPEED k)
    (leftAlone cache (String.substring 0 j TYPEWRITER_TEXT) true t)
  = Some (leftAlone cache (String.substring 0 (j + k) TYPEWRITER_TEXT) true
            (t + TYPING_SPEED * Z.of_nat k), []).
Proof.
  induction k as [|k IH]; intros j t Hjk.
  - simpl. rewrite Nat.add_0_r. do 3 f_equal. lia.
  - destruct (typing_effect j) as [He Hd]; [lia|].
    change (ticks TYPING_SPEED (S k))
      with ([Elapse TYPING_SPEED; TypewriterFire] ++ ticks TYPING_SPEED k).
    pose proof (tick cache _ true t _ _ He ltac:(done) Hd) as H1.
    rewrite (run_app_Some _ _ _ _ _ _ _ H1 (IH (S j) (t + TYPING_SPEED) ltac:(lia))).
    simpl. do 2 f_equal. replace (j + S k)%nat with (S (j + k)) by lia.
    f_equal. lia.
Qed.

Lemma deleting_run cache k : forall t,
  (k <= 22)%nat ->
  run onSelect (ticks DELETING_SPEED k)
    (leftAlone cache (String.substring 0 k TYPEWRITER_TEXT) false t)
  = Some (leftAlone cache "" false (t + DELETING_SPEED * Z.of_nat k), []).
Proof.
  induction k as [|k IH]; intros t Hk.
  - simpl. do 3 f_equal. lia.
  - destruct (deleting_effect k) as [He Hd]; [lia|].
    change (ticks DELETING_SPEED (S k))
      with ([Elapse DELETING_SPEED; TypewriterFire] ++ ticks DELETING_SPEED k).
    pose proof (tick cache _ false t _ _ He ltac:(done) Hd) as H1.
    rewrite (run_app_Some _ _ _ _ _ _ _ H1 (IH (t + DELETING_SPEED) ltac:(lia))).
    simpl. do 3 f_equal. lia.
Qed.

(** X14. Left alone from the time it mounts, the component types the text
    of the placeholder one character every 80 ms, and after one round -
    22 characters typed, 2000 ms, 22 characters deleted at 40 ms each,
    500 ms - it is in the state in which it mounted, 5140 ms later: the
    animation is a loop. *)
Theorem typewriter_cycle cache t0 :
  (forall k, (k <= 22)%nat ->
     exists w,
       run onSelect (ticks TYPING_SPEED k) (mount cache t0) = Some (w, [])
       /\ displayPlaceholder (st w) = String.substring 0 k TYPEWRITER_TEXT
       /\ isTyping (st w) = true
       /\ now w = t0 + TYPING_SPEED * Z.of_nat k)
  /\ run onSelect cycle (mount cache t0) = Some (mount cache (t0 + 5140), []).
Proof.
  change (mount cache t0) with (leftAlone cache (String.substring 0 0 TYPEWRITER_TEXT) true t0).
  split.
  - intros k Hk. eexists. split; [apply (typing_run cache k 0 t0); lia|]. done.
  - unfold cycle.
    pose proof (typing_run cache 22 0 t0 ltac:(lia)) as H1.
    pose proof (tick cache TYPEWRITER_TEXT true (t0 + TYPING_SPEED * 22)
                  PAUSE_AFTER_TYPE (TwSetIsTyping false) eq_refl ltac:(done) eq_refl)
      as H2.
    pose proof (deleting_run cache 22
                  (t0 + TYPING_SPEED * 22 + PAUSE_AFTER_TYPE) ltac:(lia)) as H3.
    pose proof (tick cache "" false
                  (t0 + TYPING_SPEED * 22 + PAUSE_AFTER_TYPE + DELETING_SPEED * 22)
                  PAUSE_AFTER_DELETE (TwSetIsTyping true) eq_refl ltac:(done) eq_refl)
      as H4.
    etrans; [exact (run_app_Some _ _ _ _ _ _ _ H1
                      (run_app_Some _ _ _ _ _ _ _ H2
                         (run_app_Some _ _ _ _ _ _ _ H3 H4)))|].
    assert (HT : t0 + TYPING_SPEED * 22 + PAUSE_AFTER_TYPE + DELETING_SPEED * 22
                 + PAUSE_AFTER_DELETE = t0 + 5140).
    { unfold TYPING_SPEED, PAUSE_AFTER_TYPE, DELETING_SPEED, PAUSE_AFTER_DELETE. lia. }
    rewrite HT. reflexivity.
Qed.

(** *** A response that comes late *)

(** X23. Typing does not cancel the request in flight. Whatever value is
    typed while a request is in flight, a response to that request is still
    handled afterwards: the ranking for the query of the request is put on
    display and the list opens, under the value just typed, and the spinner
    is turned off. *)
Theorem stale_response cache t0 es w cmds id r value docs results :
  run onSelect es (mount cache t0) = Some (w, cmds) ->
  requests w !! id = Some r -> req_status r = InFlight ->
  rankResults (req_query r) docs = Some results ->
  exists w',
    run onSelect [Change value; Respond id (Docs docs)] w = Some (w', [])
    /\ query (st w') = value
    /\ suggestions (st w') = results
    /\ isOpen (st w') = true
    /\ isLoading (st w') = false
    /\ searchCache w' !! req_key r = Some results.
Proof.
  intros Hrun Hr Hs Hrank.
  set (w1 := rerender (st w) (handleInputChange value w)).
  assert (H1 : step onSelect (Change value) w = Some (w1, [])) by reflexivity.
  destruct (rerender_frame (st w) (handleInputChange value w))
    as (Hst1 & _ & _ & _ & Hrq1 & _).
  fold w1 in Hst1, Hrq1.
  destruct (handleInputChange_frame value w) as (_ & _ & Hrq & _ & _ & _ & _ & _ & Hq).
  rewrite Hrq in Hrq1. rewrite <- Hst1 in Hq. clearbody w1.
  set (w2 := fetchBooks_resume r (Docs docs)
               (with_requests (settle id (requests w)) (abortControllerRef w1) w1)).
  assert (H2 : step onSelect (Respond id (Docs docs)) w1 = Some (rerender (st w1) w2, [])).
  { unfold step, handle. rewrite Hrq1, Hr. cbn [mbind option_bind]. rewrite Hs.
    reflexivity. }
  exists (rerender (st w1) w2).
  split.
  { apply (run_cons_Some _ _ _ w1 [] _ []); [exact H1|].
    apply (run_cons_Some _ _ _ (rerender (st w1) w2) [] _ []);
      [exact H2|reflexivity]. }
  destruct (rerender_frame (st w1) w2) as (-> & _ & _ & -> & _).
  unfold w2, fetchBooks_resume. rewrite Hrank. simpl.
  split; [exact Hq|]. split; [done|]. split; [done|]. split; [done|].
  apply lookup_insert_eq.
Qed.

End MoreMachine.

(** ** More on handleSummary *)

Section Outcome.
Import Json Details.
Context (server : nat -> url -> fetch_result) (book : Autocomplete.suggestion)
        (d : details).

(** X15. A run of [handleSummary] ends in one of two ways, whatever the page
    showed before. Either it has failed: there is no navigation, the
    overlay is off, and the message logged last is the one in
    [downloadError]. Or it has navigated, once, as its last effect: no
    error is stored or logged, the overlay is still on, and the run has
    waited 500, 300, 500 and 500 ms on the way. *)
Theorem handleSummary_outcome :
  let w := run server book d in
  (exists m before,
     log w = before ++ [ConsoleError m]
     /\ (forall m', ~ In (ConsoleError m') before)
     /\ navigations (log w) = []
     /\ isSearching (ds w) = false
     /\ downloadError (ds w) = Some m)
  \/ (exists c before,
        log w = before ++ [Do c]
        /\ navigations (log w) = [c]
        /\ (forall m, ~ In (ConsoleError m) (log w))
        /\ isSearching (ds w) = true
        /\ downloadError (ds w) = None
        /\ omap (fun e => match e with Sleep ms => Some ms | _ => None end) (log w)
           = [500; 300; 500; 500]).
Proof.
  cbv zeta.
  destruct (run_shape server book d) as
    [(m & (Hlog & He & Hs) & _)
    |[(w1 & m & E1 & (Hlog & He & Hs) & _)
     |[(w1 & w2 & m & E1 & E2 & (Hlog & He & Hs) & _)
      |(w1 & w2 & w3 & E1 & E2 & E3 & Hlog & He & Hs)]]].
  1-3: left; exists m; eexists; rewrite Hlog;
       (split; [reflexivity|]); (split; [|by repeat split]);
       intros m' Hin; simpl in Hin; intuition discriminate.
  right. rewrite Hlog. eexists _, [_; _; _; _; _; _; _; _; _; _].
  split; [reflexivity|].
  split; [reflexivity|]. split; [|by repeat split].
  intros m Hin. simpl in Hin. intuition discriminate.
Qed.

(** X16. Every call of a run carries the same parameters, the title and
    the authors of the book (the text "undefined" for a book without a
    title), and goes to one of the three end points. *)
Theorem handleSummary_params (u : url) :
  In (Fetch u) (log (run server book d)) ->
  params u = [("title", default "undefined" (Autocomplete.title book));
              ("author", Autocomplete.authors book)]
  /\ endpoint u ∈ ["find-pdf"; "extract-chapter"; "generate-script"].
Proof.
  destruct (run_shape server book d) as
    [(m & (Hlog & _) & _)
    |[(w1 & m & E1 & (Hlog & _) & _)
     |[(w1 & w2 & m & E1 & E2 & (Hlog & _) & _)
      |(w1 & w2 & w3 & E1 & E2 & E3 & Hlog & _)]]];
    rewrite Hlog; simpl; intros Hin;
    repeat match type of Hin with
           | _ \/ _ => destruct Hin as [Hin|Hin]
           | False => destruct Hin
           end;
    try discriminate Hin; injection Hin as <-;
    (split; [reflexivity|]); set_solver.
Qed.




End Outcome.

(** ** The covers *)

Section CoverFacts.
Import Autocomplete Covers.

(** *** The pieces of a key *)

Lemma splitOn_pieces sep s :
  exists ps l,
    splitOn sep s = ps ++ [l]
    /\ s = fold_right (fun p acc => p +:+ String sep acc) l ps
    /\ (forall a b, l <> a +:+ String sep b).
Proof.
  induction s as [|c r (ps & l & Hs & Hr & Hl)]; simpl.
  - exists [], "". repeat split. intros [|? ?] b; discriminate.
  - destruct (Ascii.eqb_spec c sep) as [->|Hne].
    + exists ("" :: ps), l. rewrite Hs. split; [done|]. split; [|done].
      simpl. by rewrite <- Hr.
    + rewrite Hs. destruct ps as [|p ps]; simpl in *.
      * exists [], (String c l). split; [done|]. split; [by rewrite Hr|].
        intros [|c' a] b; simpl; intros [= ? ?]; subst; [done|].
        by eapply Hl.
      * exists (String c p :: ps), l. split; [done|]. split; [|done].
        simpl. by rewrite Hr.
Qed.

Lemma append_assoc (a b c : string) : (a +:+ b) +:+ c = a +:+ (b +:+ c).
Proof.
  induction a as [|x a IH]; [done|].
  change (String x ((a +:+ b) +:+ c) = String x (a +:+ (b +:+ c))).
  by rewrite IH.
Qed.

(** X18. The Open Library identifier that [getCoverUrl] takes from the key
    of a book is what follows the last slash of the key, and the whole key
    when there is no slash: the key is the identifier, or ends with a slash
    and the identifier, and the identifier holds no slash. *)
Theorem olidOf_last_piece (k : string) :
  (k = olidOf k \/ exists pre, k = pre +:+ "/" +:+ olidOf k)
  /\ (forall a b, olidOf k <> a +:+ "/" +:+ b).
Proof.
  unfold olidOf. destruct (splitOn_pieces "/"%char k) as (ps & l & -> & Hk & Hl).
  rewrite last_last. split; [|exact Hl].
  clear Hl. revert k Hk. induction ps as [|p ps IH]; intros k Hk; simpl in Hk.
  - by left.
  - right. destruct (IH _ eq_refl) as [E|[pre E]].
    + exists p. rewrite Hk, E. reflexivity.
    + exists (p +:+ "/" +:+ pre). rewrite Hk, E, !append_assoc. reflexivity.
Qed.

(** *** The cover on the two pages *)

Lemma append_nonempty (a b : string) : a <> "" -> a +:+ b <> "".
Proof. by destruct a. Qed.

(** X19. [getCoverUrl] of the details page gives no URL exactly when the
    book has no cover identifier, no first ISBN and no key (or empty or zero
    ones); a cover identifier wins over the ISBN and the key, and then the
    player page builds the same URL as the details page at size M; but for a
    book without a cover identifier the player page has no URL, whatever the
    details page finds by ISBN or key. A URL is never the empty string, so
    the details page shows the placeholder card exactly when there is no URL or
    the image has failed, the image exactly when it does not show the card, and
    the skeleton only under an image that has not loaded. *)
Theorem cover_urls (book : suggestion) (size : string) (imageLoaded imageError : bool) :
  (getCoverUrl book size = None
   <-> truthyZ (cover_i book) = false /\ truthyStr (firstIsbn book) = false
       /\ truthyStr (key book) = false)
  /\ (truthyZ (cover_i book) = true ->
      getCoverUrl book size
      = Some ("https://covers.openlibrary.org/b/id/"
              +:+ showZ (default 0 (cover_i book)) +:+ "-" +:+ size +:+ ".jpg")
      /\ playerCoverUrl book = getCoverUrl book "M")
  /\ (truthyZ (cover_i book) = false -> playerCoverUrl book = None)
  /\ getCoverUrl book size <> Some ""
  /\ (let v := coverContainer (getCoverUrl book "M") imageLoaded imageError in
      (placeholderCard v = true <-> getCoverUrl book "M" = None \/ imageError = true)
      /\ image v = negb (placeholderCard v)
      /\ (skeleton v = true -> image v = true /\ imageLoaded = false)).
Proof.
  assert (Hne : forall sz, truthyStr (getCoverUrl book sz) = false <->
                           getCoverUrl book sz = None).
  { intros sz. unfold getCoverUrl.
    destruct (truthyZ (cover_i book)); [done|].
    destruct (truthyStr (firstIsbn book)); [done|].
    destruct (truthyStr (key book)); done. }
  split; [|split; [|split; [|split]]].
  - unfold getCoverUrl.
    destruct (truthyZ (cover_i book)); [split; [done|by intros (? & _)]|].
    destruct (truthyStr (firstIsbn book)); [split; [done|by intros (_ & ? & _)]|].
    destruct (truthyStr (key book)); [split; [done|by intros (_ & _ & ?)]|done].
  - intros H. unfold getCoverUrl, playerCoverUrl. by rewrite H.
  - intros H. unfold playerCoverUrl. by rewrite H.
  - unfold getCoverUrl.
    repeat case_match; try done; intros [= H]; by apply append_nonempty in H.
  - cbv zeta. unfold coverContainer. simpl.
    destruct (truthyStr (getCoverUrl book "M")) eqn:Ht.
    + assert (Hsome : getCoverUrl book "M" <> None).
      { intros E. apply Hne in E. congruence. }
      destruct imageLoaded, imageError; simpl; intuition congruence.
    + apply Hne in Ht. destruct imageLoaded, imageError; simpl; intuition congruence.
Qed.

End CoverFacts.

(** ** More on the script and the player page *)

Section MoreScript.
Import Player PlayerPage.

(** *** The entries and the lines *)

Lemma dotPlus_nonempty s t : dotPlus s = Some t -> t <> "".
Proof. unfold dotPlus. destruct (dotRun s); [done|]. by intros [= <-]. Qed.

Lemma spacesThenGroup_nonempty s : forall t, spacesThenGroup s = Some t -> t <> "".
Proof.
  induction s as [|c r IH]; simpl; intros t; [done|].
  destruct (Js.isWhiteSpace c); [|apply dotPlus_nonempty].
  destruct (spacesThenGroup r) as [t'|]; [|apply dotPlus_nonempty].
  intros [= <-]. by apply IH.
Qed.

Lemma matchSpeaker_nonempty name line t : matchSpeaker name line = Some t -> t <> "".
Proof.
  unfold matchSpeaker. destruct (matchLiteral _ line); simpl; [|done].
  apply spacesThenGroup_nonempty.
Qed.

Lemma parseLine_entries ds line :
  Forall (fun d => text d <> "") ds ->
  Forall (fun d => text d <> "") (parseLine ds line)
  /\ List.length (parseLine ds line)
     = (List.length ds + if speakerLine line then 1 else 0)%nat.
Proof.
  intros H. unfold parseLine, speakerLine.
  destruct (matchSpeaker "Naval" line) as [t|] eqn:Hn.
  { split; [|rewrite length_app; simpl; lia].
    apply Forall_app. split; [exact H|]. apply Forall_singleton.
    by apply (matchSpeaker_nonempty "Naval" line). }
  destruct (matchSpeaker "Chris" line) as [t|] eqn:Hc.
  { split; [|rewrite length_app; simpl; lia].
    apply Forall_app. split; [exact H|]. apply Forall_singleton.
    by apply (matchSpeaker_nonempty "Chris" line). }
  simpl. destruct (_ && _); [|split; [exact H|lia]].
  destruct (0 <? List.length ds)%nat; [|split; [exact H|lia]].
  unfold appendToLast. split; [|rewrite length_alter; lia].
  apply Forall_alter; [exact H|]. intros d _ Hd. simpl.
  by apply append_nonempty.
Qed.

Lemma fold_parseLine_entries lines : forall ds,
  Forall (fun d => text d <> "") ds ->
  Forall (fun d => text d <> "") (fold_left parseLine lines ds)
  /\ List.length (fold_left parseLine lines ds)
     = (List.length ds + List.length (List.filter speakerLine lines))%nat.
Proof.
  induction lines as [|l lines IH]; intros ds H; simpl; [split; [exact H|lia]|].
  destruct (parseLine_entries ds l H) as [H1 H2].
  destruct (IH _ H1) as [H3 H4]. split; [exact H3|]. rewrite H4, H2.
  destruct (speakerLine l); simpl; lia.
Qed.

(** X20. [parseScript] returns one entry for each line on which the pattern
    of Naval or of Chris matches, no more and no less: the other lines add to
    the text of an entry or are dropped. And no entry has an empty text. *)
Theorem parseScript_entries (script : option string) :
  List.length (parseScript script)
  = List.length (List.filter speakerLine (scriptLines (default "" script)))
  /\ (forall d, d ∈ parseScript script -> text d <> "").
Proof.
  destruct script as [s|]; simpl; [|split; [done|by intros d H%elem_of_nil]].
  destruct (String.eqb_spec s "") as [->|_].
  { split; [done|by intros d H%elem_of_nil]. }
  destruct (fold_parseLine_entries (scriptLines s) [] (Forall_nil_2 _)) as [H1 H2].
  split; [exact H2|]. by apply Forall_forall.
Qed.

(** *** Piece by piece *)

Lemma splitLines_nonempty s : splitLines s <> [].
Proof.
  destruct s as [|c r]; simpl; [done|].
  destruct (Ascii.eqb c "010"); [done|]. by destruct (splitLines r).
Qed.

Lemma splitLines_app a b :
  splitLines (a +:+ String "010" b) = splitLines a ++ splitLines b.
Proof.
  induction a as [|c a IH]; [done|].
  change (String c a +:+ String "010" b) with (String c (a +:+ String "010" b)).
  simpl. destruct (Ascii.eqb c "010"); [by rewrite IH|].
  rewrite IH. pose proof (splitLines_nonempty a).
  by destruct (splitLines a).
Qed.

Lemma scriptLines_app a b :
  scriptLines (a +:+ String "010" b) = scriptLines a ++ scriptLines b.
Proof. unfold scriptLines. by rewrite splitLines_app, List.filter_app. Qed.

Lemma parseScript_fold s :
  parseScript (Some s) = fold_left parseLine (scriptLines s) [].
Proof. simpl. by destruct (String.eqb_spec s "") as [->|_]. Qed.

Lemma trim_blank s : Js.trim s = "" -> Js.trimStart s = "".
Proof.
  unfold Js.trim. induction s as [|c r IH]; simpl; [done|].
  destruct (Js.isWhiteSpace c) eqn:Hc; [exact IH|].
  simpl. rewrite Hc. by destruct (Js.trimEnd r).
Qed.

Lemma blank_lines s :
  Js.trimStart s = "" -> Forall (fun l => Js.trimStart l = "") (splitLines s).
Proof.
  induction s as [|c r IH]; simpl; [by repeat constructor|].
  destruct (Js.isWhiteSpace c) eqn:Hc; [|done]. intros Hr.
  specialize (IH Hr).
  destruct (Ascii.eqb c "010"); [by constructor|].
  destruct IH as [|l ls Hl Hls]; constructor; simpl; rewrite ?Hc; done.
Qed.

Lemma scriptLines_blank s : Js.trim s = "" -> scriptLines s = [].
Proof.
  intros H%trim_blank%blank_lines. unfold scriptLines.
  induction H as [|l ls Hl _ IH]; simpl; [done|].
  unfold Js.trim at 1. by rewrite Hl.
Qed.

(** X21. A script can be parsed piece by piece: the entries of two pieces
    joined by a line feed are those of the first piece, taken further over
    the lines of the second. So blank lines between two pieces change
    nothing, and a first piece without a speaker line is dropped
    altogether. *)
Theorem parseScript_pieces (a b : string) :
  parseScript (Some (a +:+ String "010" b))
  = fold_left parseLine (scriptLines b) (parseScript (Some a))
  /\ (forall blank,
        Js.trim blank = "" ->
        parseScript (Some (a +:+ String "010" (blank +:+ String "010" b)))
        = parseScript (Some (a +:+ String "010" b)))
  /\ (List.filter speakerLine (scriptLines a) = [] ->
      parseScript (Some (a +:+ String "010" b)) = parseScript (Some b)).
Proof.
  assert (H : parseScript (Some (a +:+ String "010" b))
              = fold_left parseLine (scriptLines b) (parseScript (Some a))).
  { rewrite !parseScript_fold, scriptLines_app. apply fold_left_app. }
  split; [exact H|]. split.
  - intros blank Hb. rewrite !parseScript_fold, !scriptLines_app.
    by rewrite (scriptLines_blank blank Hb).
  - intros Hnone. rewrite H, (parseScript_fold b). f_equal.
    destruct (fold_parseLine_entries (scriptLines a) [] (Forall_nil_2 _)) as [_ Hlen].
    rewrite Hnone in Hlen. rewrite parseScript_fold.
    by apply nil_length_inv.
Qed.

End MoreScript.

Section PlayerFacts.
Import Json Details.

(** *** From the run to the player *)

Context (server : nat -> url -> fetch_result) (book : Autocomplete.suggestion)
        (d : details).

(** X22. Where a run of [handleSummary] leads: after its navigation the
    router shows the player page for the same book, never the card "No book
    selected", and the script that page reads is the body of the third
    response; when that body has a string as its [script], the book has a
    title and the first body has no [pages] that React rejects, the page
    shows the cover by cover identifier and the parsed script. *)
Theorem summary_to_player (c : Router.command) (l : Router.location) :
  In c (navigations (log (run server book d))) ->
  let l' := Router.navigate c l in
  exists v1 v3,
    server 0%nat (api book "find-pdf") = okResponse v1
    /\ server 2%nat (api book "generate-script") = okResponse v3
    /\ Router.matchRoutes l' = Some Router.AudioPlayer
    /\ Home.bookOf l' = Some book
    /\ PlayerPage.scriptInfoOf l' = Some v3
    /\ PlayerPage.AudioPlayer l' <> Ok PlayerPage.NoBookSelected
    /\ (forall fields k s,
          v3 = JObj fields ->
          List.find (fun f => String.eqb (fst f) "script") fields = Some (k, JStr s) ->
          is_Some (Autocomplete.title book) ->
          (forall pages, getProp "pages" v1 = Ok (Some pages) ->
                         PlayerPage.validChild pages = true) ->
          PlayerPage.AudioPlayer l'
          = Ok (PlayerPage.PlayerOf book (Covers.playerCoverUrl book)
                  (Player.parseScript (Some s)))).
Proof.
  destruct (run_shape server book d) as
    [(m & (Hlog & _) & _)
    |[(w1 & m & E1 & (Hlog & _) & _)
     |[(w1 & w2 & m & E1 & E2 & (Hlog & _) & _)
      |(w1 & w2 & w3 & E1 & E2 & E3 & Hlog & _)]]];
    rewrite Hlog; simpl; try done.
  intros [<-|[]]. exists w1, w3. split; [exact E1|]. split; [exact E3|].
  split; [reflexivity|]. split; [reflexivity|]. split; [reflexivity|]. split.
  - unfold PlayerPage.AudioPlayer. simpl.
    destruct (PlayerPage.dialoguesOf _); [|done].
    destruct (Covers.playerCoverUrl book), (Autocomplete.title book);
      try done; by destruct (forallb _ _).
  - intros fields k s -> Hs [t Ht] Hpages. unfold PlayerPage.AudioPlayer. simpl.
    unfold PlayerPage.scriptInfoOf. simpl.
    unfold PlayerPage.dialoguesOf. rewrite Hs. simpl.
    assert (Hchild : forallb PlayerPage.validChild
                       (option_list (PlayerPage.pagesOf
                          {| Router.pathname := "/player";
                             Router.state :=
                               Some {| Router.book := Some book;
                                       Router.pdfInfo := Some w1;
                                       Router.chapterInfo := Some w2;
                                       Router.scriptInfo := Some (JObj fields) |} |}))
                     = true).
    { unfold PlayerPage.pagesOf. simpl. destruct w1; try done. simpl in Hpages.
      destruct (List.find _ fields0) as [[k' pages]|]; simpl; [|done].
      by rewrite (Hpages pages eq_refl). }
    destruct (String.eqb_spec s "") as [->|_]; simpl; rewrite Ht, Hchild;
      by destruct (Covers.playerCoverUrl book).
Qed.

End PlayerFacts.

(** ** The further properties at sample inputs *)

Section MoreWitnesses.
Import Autocomplete Lifecycle.

Lemma empty_cache_listed (k : string) (v : list suggestion) :
  (∅ : gmap string (list suggestion)) !! k = Some v -> listed v.
Proof. intros H. rewrite lookup_empty in H. discriminate H. Qed.



(** X8: Escape with the suggestions on display. *)
Lemma keys_never_fail_witness :
  exists w' c,
    step (Cmd := Router.command) None (KeyDown "Escape") Scenes.browsing = Some (w', c)
    /\ c = [].
Proof.
  destruct (keys_never_fail (Cmd := Router.command) None ∅ 0 Scenes.answered
              Scenes.browsing [] "Escape") as (w' & c & Hs & _ & _ & Hc).
  - exact empty_cache_listed.
  - vm_compute. reflexivity.
  - exists w', c. split; [exact Hs|]. apply Hc; discriminate.
Defined.

(** X9 while the request for [du] is in flight. *)
Lemma unmount_quiet_witness :
  handle (Cmd := Router.command) None (Respond 0 (Docs Samples.shelf))
    (unmount Scenes.searching) = None.
Proof.
  destruct (unmount_quiet (Cmd := Router.command) None ∅ 0 Samples.typing
              Scenes.searching []) as (_ & _ & _ & _ & H & _).
  - vm_compute. reflexivity.
  - exact (H 0%nat (Docs Samples.shelf)).
Defined.

(** X10 after the user has typed [du] and then [dun]: the rejection of the
    aborted request for [du] turns the spinner off while the request for
    [dun] is in flight. *)
Lemma spinner_busy_witness :
  exists w',
    step (Cmd := Router.command) None (AbortHandled 0) Scenes.superseded = Some (w', [])
    /\ isLoading (st w') = false
    /\ List.length (List.filter inFlight (requests w')) = 1%nat.
Proof.
  destruct (spinner_busy (Cmd := Router.command) None ∅ 0 Scenes.retyped
              Scenes.superseded []) as (_ & H).
  - vm_compute. reflexivity.
  - destruct (H 0%nat {| req_query := "du"; req_key := "du"; req_status := Aborted |})
      as (w' & Hs & Hl & Hf).
    + vm_compute. reflexivity.
    + reflexivity.
    + exists w'. split; [exact Hs|]. split; [exact Hl|]. rewrite Hf.
      vm_compute. reflexivity.
Defined.

(** X11 once the search for [du] has been answered. *)
Lemma cache_entries_witness :
  exists v q docs,
    searchCache Scenes.browsing !! "du" = Some v
    /\ "du" = Js.toLowerCase q /\ 2 <= Js.length q /\ rankResults q docs = Some v.
Proof.
  destruct (cache_entries (Cmd := Router.command) None ∅ 0 Scenes.answered
              Scenes.browsing []) as (_ & _ & H).
  - vm_compute. reflexivity.
  - destruct (searchCache Scenes.browsing !! "du") as [v|] eqn:E; [|discriminate E].
    destruct (H "du" v E) as [H0|(q & docs & H1)].
    + rewrite lookup_empty in H0. discriminate H0.
    + exists v, q, docs. split; [reflexivity|exact H1].
Defined.


(** X13 for the component as mounted. *)
Lemma typewriter_progress_witness :
  exists due a, typewriter (mount ∅ 0) = Some (due, a) /\ due <= 0 + PAUSE_AFTER_TYPE.
Proof.
  destruct (typewriter_progress (Cmd := Router.command) None ∅ 0 [] (mount ∅ 0) [])
    as (due & a & w' & Ht & Hd & _).
  - reflexivity.
  - reflexivity.
  - reflexivity.
  - exists due, a. split; [exact Ht|exact Hd].
Defined.

(** X23 while the request for [du] is in flight: the user clears the input,
    and the suggestions for [du] open under the empty input. *)
Lemma stale_response_witness :
  exists w',
    run (Cmd := Router.command) None [Change ""; Respond 0 (Docs Samples.shelf)]
      Scenes.searching = Some (w', [])
    /\ query (st w') = "" /\ isOpen (st w') = true
    /\ List.length (suggestions (st w')) = 2%nat.
Proof.
  destruct (rankResults "du" Samples.shelf) as [results|] eqn:Hrank;
    [|vm_compute in Hrank; discriminate Hrank].
  destruct (stale_response (Cmd := Router.command) None ∅ 0 Samples.typing
              Scenes.searching [] 0%nat
              {| req_query := "du"; req_key := "du"; req_status := InFlight |}
              "" Samples.shelf results)
    as (w' & Hr & Hq & Hsu & Ho & _).
  - vm_compute. reflexivity.
  - vm_compute. reflexivity.
  - reflexivity.
  - exact Hrank.
  - exists w'. split; [exact Hr|]. split; [exact Hq|]. split; [exact Ho|].
    rewrite Hsu. vm_compute in Hrank. injection Hrank as <-. reflexivity.
Defined.

End MoreWitnesses.

(** X16 for the one call that is made when the service is down. *)
Lemma handleSummary_params_witness :
  Details.endpoint (Details.api Samples.dune "find-pdf")
  ∈ ["find-pdf"; "extract-chapter"; "generate-script"].
Proof.
  destruct (handleSummary_params Samples.down Samples.dune Details.idle
              (Details.api Samples.dune "find-pdf")) as (_ & H).
  - vm_compute. left. reflexivity.
  - exact H.
Defined.

(** X22 for a service that has the script ready. *)
Lemma summary_to_player_witness :
  exists c,
    Details.navigations (Details.log (Details.run Scenes.ready Samples.dune Details.idle))
    = [c]
    /\ Router.matchRoutes
         (Router.navigate c {| Router.pathname := "/book"; Router.state := None |})
       = Some Router.AudioPlayer.
Proof.
  eexists. split; [vm_compute; reflexivity|].
  destruct (summary_to_player Scenes.ready Samples.dune Details.idle
              (Router.Navigate "/player"
                 {| Router.book := Some Samples.dune;
                    Router.pdfInfo := Some Scenes.library;
                    Router.chapterInfo := Some Scenes.library;
                    Router.scriptInfo := Some Scenes.library |})
              {| Router.pathname := "/book"; Router.state := None |})
    as (v1 & v3 & _ & _ & H & _).
  - vm_compute. left. reflexivity.
  - vm_compute in H |- *. exact H.
Defined.
